(** * The icon generator's build helpers

    A shallow embedding of the build utilities of the icon generator
    (the abstract tree builder, the theme naming functions, the rollback
    lookup and the name table), followed by the properties established
    about them.

    JavaScript strings are represented by [string], read as the UTF-8
    bytes of the source string.  A thrown exception is an explicit
    [Throw] result; a plain object used as a dictionary is a
    [gmap string string] holding its own properties. *)

From stdpp Require Import gmap strings list fin_maps pretty.
From Stdlib Require Import Ascii String ZArith Lia.

Local Open Scope string_scope.
Local Open Scope list_scope.

(** ** Runtime values and exceptions *)

Module Js.

(** The exceptions the build helpers can raise.  [AssertionError] carries
    the [message] argument handed to [assert] ([None] when the argument
    is [undefined], in which case the runtime generates a default text);
    [SystemError] is the error of a failed file-system call with its
    code ([ENOENT], [EACCES], ...). *)
Inductive error : Type :=
  | AssertionError (message : option string)
  | TypeError (message : string)
  | Error (message : string)
  | SystemError (code : string).

(** The outcome of evaluating an expression: a value, or an exception. *)
Inductive result (A : Type) : Type :=
  | OK (a : A)
  | Throw (e : error).
Arguments OK {A} a.
Arguments Throw {A} e.

Definition bind {A B : Type} (r : result A) (k : A -> result B) : result B :=
  match r with
  | OK a => k a
  | Throw e => Throw e
  end.

(** [assert(value, message)]. *)
Definition assert (value : bool) (message : option string) : result unit :=
  if value then OK tt else Throw (AssertionError message).

(** [array.map(f)] for a callback that may throw: the elements are visited
    from left to right and the first exception aborts the traversal. *)
Definition mapE {A B : Type} (f : A -> result B) : list A -> result (list B) :=
  fix go (l : list A) : result (list B) :=
    match l with
    | [] => OK []
    | x :: l' =>
        match f x with
        | Throw e => Throw e
        | OK y =>
            match go l' with
            | Throw e => Throw e
            | OK ys => OK (y :: ys)
            end
        end
    end.

(** A template placeholder filled with an optional string: an absent
    value prints as [undefined]. *)
Definition show_optional (s : option string) : string :=
  match s with
  | Some s => s
  | None => "undefined"
  end.

(** The numbers produced by [Number.parseInt]: [NaN], a finite number
    whose value is an integer, or an infinity.  The finite numbers are
    doubles: [Int z] is only built for an integer [z] that a double holds
    exactly (see [round_to_double]). *)
Inductive number : Type :=
  | NaN
  | Int (z : Z)
  | Infinity (negative : bool).

(** The double nearest to a natural number [m], ties going to the even
    significand, as the integer it is worth; [None] when the nearest
    double is infinite.  A double has 53 significant bits, and the finite
    ones stay below 2^1024. *)
Definition round_to_double (m : Z) : option Z :=
  let bits := (Z.log2 m + 1)%Z in
  if (bits <=? 53)%Z then Some m
  else
    let shift := (bits - 53)%Z in
    let q := Z.shiftr m shift in
    let r := (m - Z.shiftl q shift)%Z in
    let half := Z.shiftl 1 (shift - 1) in
    let q' := if (half <? r)%Z || ((r =? half)%Z && Z.odd q)
              then (q + 1)%Z else q in
    let v := Z.shiftl q' shift in
    if (v <? 2 ^ 1024)%Z then Some v else None.

Definition rounds_to (candidate m : Z) : bool :=
  match round_to_double candidate with
  | Some v => (v =? m)%Z
  | None => false
  end.

(** The decimal number that [Number.prototype.toString] prints for the
    double worth the natural number [m] of [d] decimal digits: the one
    with the fewest significant digits that still rounds to [m], and of
    these the one nearest to [m].  [k] is the number of significant
    digits tried; 17 always suffice. *)
Fixpoint shortest_decimal (fuel : nat) (k d m : Z) : Z :=
  match fuel with
  | O => m
  | S fuel' =>
      let p := (10 ^ Z.max 0 (d - k))%Z in
      let lo := (m / p * p)%Z in
      let hi := (lo + p)%Z in
      if rounds_to lo m && rounds_to hi m then
        if (m - lo <? hi - m)%Z then lo
        else if (hi - m <? m - lo)%Z then hi
        else if Z.even (m / p) then lo else hi
      else if rounds_to lo m then lo
      else if rounds_to hi m then hi
      else shortest_decimal fuel' (k + 1)%Z d m
  end.

(** A positive number without its trailing zeros. *)
Fixpoint strip_zeros (fuel : nat) (c : Z) : Z :=
  match fuel with
  | O => c
  | S fuel' => if (c mod 10 =? 0)%Z then strip_zeros fuel' (c / 10)%Z else c
  end.

(** The text of a double worth the natural number [m]: all the digits
    of the shortest decimal when these are at most 21, and the
    exponent form [d.ddde+n] beyond. *)
Definition show_natural (m : Z) : string :=
  let d := String.length (pretty m) in
  let c := shortest_decimal 17 1 (Z.of_nat d) m in
  let n := String.length (pretty c) in
  if Nat.leb n 21 then pretty c
  else
    match pretty (strip_zeros n c) with
    | EmptyString => EmptyString
    | String first EmptyString =>
        String first EmptyString +:+ "e+" +:+ pretty (Z.of_nat n - 1)%Z
    | String first rest =>
        String first ("." +:+ rest) +:+ "e+" +:+ pretty (Z.of_nat n - 1)%Z
    end.

(** The text a template literal shows for a number. *)
Definition show_number (n : number) : string :=
  match n with
  | NaN => "NaN"
  | Int z => if (z <? 0)%Z then "-" +:+ show_natural (- z) else show_natural z
  | Infinity negative => if negative then "-Infinity" else "Infinity"
  end.

Definition show_optional_number (n : option number) : string :=
  match n with
  | Some n => show_number n
  | None => "undefined"
  end.

Definition is_NaN (n : number) : bool :=
  match n with
  | NaN => true
  | Int _ | Infinity _ => false
  end.

(** [s.split(sep)] for a one-character separator.  The result is never
    empty: the empty string splits into one empty token. *)
Fixpoint split (sep : ascii) (s : string) : list string :=
  match s with
  | EmptyString => [EmptyString]
  | String c s' =>
      if Ascii.eqb c sep then EmptyString :: split sep s'
      else
        match split sep s' with
        | [] => [String c EmptyString]
        | tok :: toks => String c tok :: toks
        end
  end.

(** [array.slice(start)]. *)
Definition slice {A : Type} (start : nat) (l : list A) : list A := drop start l.

(** White space as [parseInt] skips it: the one-byte characters TAB, LF,
    VT, FF, CR and SP, and the UTF-8 encodings of U+00A0, U+1680,
    U+2000..U+200A, U+2028, U+2029, U+202F, U+205F, U+3000 and U+FEFF. *)
Definition is_space1 (a : ascii) : bool :=
  let n := N_of_ascii a in
  ((9 <=? n) && (n <=? 13))%N || (n =? 32)%N.

Definition is_space2 (a b : ascii) : bool :=
  (N_of_ascii a =? 194)%N && (N_of_ascii b =? 160)%N.

Definition is_space3 (a b c : ascii) : bool :=
  let x := N_of_ascii a in
  let y := N_of_ascii b in
  let z := N_of_ascii c in
  ((x =? 225) && (y =? 154) && (z =? 128))%N
  || ((x =? 226) && (y =? 128)
      && (((128 <=? z) && (z <=? 138)) || (z =? 168) || (z =? 169) || (z =? 175)))%N
  || ((x =? 226) && (y =? 129) && (z =? 159))%N
  || ((x =? 227) && (y =? 128) && (z =? 128))%N
  || ((x =? 239) && (y =? 187) && (z =? 191))%N.

Fixpoint trimStart (s : string) : string :=
  match s with
  | EmptyString => s
  | String a s1 =>
      if is_space1 a then trimStart s1
      else
        match s1 with
        | String b s2 =>
            if is_space2 a b then trimStart s2
            else
              match s2 with
              | String c s3 => if is_space3 a b c then trimStart s3 else s
              | EmptyString => s
              end
        | EmptyString => s
        end
  end.

Definition digit_value (a : ascii) : option Z :=
  let n := N_of_ascii a in
  if ((48 <=? n) && (n <=? 57))%N then Some (Z.of_N n - 48)%Z else None.

(** The longest prefix of decimal digits, read as a number; [None] when
    the string does not start with a digit. *)
Fixpoint digits (acc : option Z) (s : string) : option Z :=
  match s with
  | EmptyString => acc
  | String a s' =>
      match digit_value a with
      | Some d => digits (Some (10 * default 0%Z acc + d)%Z) s'
      | None => acc
      end
  end.

(** [Number.parseInt(str, 10)]: leading white space is skipped, one sign
    is accepted, then the longest run of decimal digits is read; whatever
    follows is ignored, and no digit at all gives [NaN].  The result is
    the double nearest to the integer that was read. *)
Definition parseInt (str : string) : number :=
  let s := trimStart str in
  let '(negative, s) :=
    match s with
    | String "-" s' => (true, s')
    | String "+" s' => (false, s')
    | _ => (false, s)
    end in
  match digits None s with
  | None => NaN
  | Some z =>
      match round_to_double z with
      | Some v => Int (if negative then - v else v)
      | None => Infinity negative
      end
  end.

(** The own properties of a plain object, keyed by name. *)
Abbreviation object := (gmap string string).

(** [Object.defineProperty(obj, name, { value, enumerable: true })] on an
    object all of whose properties were defined this way.  A property so
    defined is neither writable nor configurable: defining it again
    succeeds only with the value it already has, and throws a [TypeError]
    otherwise. *)
Definition defineProperty (obj : object) (name value : string) : result object :=
  match obj !! name with
  | None => OK (<[name := value]> obj)
  | Some current =>
      if decide (current = value) then OK obj
      else Throw (TypeError ("Cannot redefine property: " +:+ name))
  end.

(** [obj[key] = value] on an object created by the literal [{}].  Any key
    becomes (or overwrites) an own property, except ["__proto__"]: that
    assignment reaches the accessor inherited from [Object.prototype],
    which ignores a value that is neither an object nor [null]. *)
Definition set (obj : object) (key value : string) : object :=
  if decide (key = "__proto__") then obj else <[key := value]> obj.

(** [haystack.includes(needle)]. *)
Fixpoint includes (needle haystack : string) : bool :=
  String.prefix needle haystack
  || match haystack with
     | EmptyString => false
     | String _ rest => includes needle rest
     end.

End Js.

Import Js.

#[export] Instance result_ret : MRet result := @OK.
#[export] Instance result_bind : MBind result := fun A B k r => bind r k.

(** ** The data model *)

(** Modelled from the spec: the typings module that declares [Node],
    [AbstractNode], [ThemeType] and [Environment] is not part of the
    sources at hand.  An attribute of a [Node] is a [{name, value}]
    pair. *)
Record Attribute : Type := mkAttribute {
  name : string;
  value : string
}.

Local Unset Elimination Schemes.

(** Modelled from the spec: the typings module is not part of the sources
    at hand.  A [Node] is the element handed over by the markup parser,
    with the fields the functions below read: [nodeName], [tagName]
    (absent on a node that is not an element), the ordered attribute list
    [attrs] and the ordered [childNodes]. *)
Inductive Node : Type := mkNode {
  nodeName : string;
  tagName : option string;
  attrs : list Attribute;
  childNodes : list Node
}.

(** Modelled from the spec: the typings module is not part of the sources
    at hand.  An [AbstractNode] has a [tag], the mapping [attrs] from
    attribute name to value, and the ordered [children]. *)
Inductive AbstractNode : Type := mkAbstractNode {
  tag : string;
  abstract_attrs : gmap string string;
  children : list AbstractNode
}.

Local Set Elimination Schemes.

(** Modelled from the spec: the typings module is not part of the sources
    at hand.  A [ThemeType] is one of the strings [fill], [outline] and
    [twotone]; at run time any string can arrive, which is what the
    [default] branches of the naming functions are for. *)
Definition ThemeType : Type := string.

Definition is_theme (theme : ThemeType) : bool :=
  String.eqb theme "fill" || String.eqb theme "outline" || String.eqb theme "twotone".

(** Modelled from the spec: the typings module is not part of the sources
    at hand.  Of the [Environment] only the source directory of the SVG
    files, [paths.SVG_DIR], and [base] are read here. *)
Record Paths : Type := mkPaths {
  SVG_DIR : string
}.

Record Environment : Type := mkEnvironment {
  paths : Paths;
  base : string
}.

(** ** The modules the helpers import *)

(** [path.resolve(...segments)]. *)
Class Path : Type := {
  path_resolve : list string -> string
}.

(** [fs.accessSync(url)] on the file system as it is during the call:
    it returns, or throws the system error of the failed probe. *)
Class Fs : Type := {
  fs_accessSync : string -> result unit
}.

(** [_.camelCase] and [_.upperFirst]. *)
Class Lodash : Type := {
  lodash_camelCase : string -> string;
  lodash_upperFirst : string -> string
}.

(** ** The abstract tree builder *)

(** [!tag]: the tag name is absent or the empty string. *)
Definition no_tag (tag : option string) : bool :=
  match tag with
  | None => true
  | Some EmptyString => true
  | Some _ => false
  end.

(** The reducer of [normalizeNode].  An exception thrown by one step
    leaves the fold at once; here it is carried through the remaining
    steps unchanged. *)
Definition reduce_step (acc : result (gmap string string)) (a : Attribute)
  : result (gmap string string) :=
  acc ← acc; defineProperty acc (name a) (value a).

(** [node.attrs.reduce(..., {})]. *)
Definition reduce_attrs (attrs : list Attribute) : result (gmap string string) :=
  foldl reduce_step (OK ∅) attrs.

Fixpoint normalizeNode (node : Node) (debugName : option string)
  : result AbstractNode :=
  match node with
  | mkNode _ tagName attrs childNodes =>
      match tagName with
      | None | Some EmptyString =>
          Throw (TypeError (show_optional debugName
                            +:+ " Element should have no no-tag node"))
      | Some tag =>
          attrs ← reduce_attrs attrs;
          children ← mapE (fun child => normalizeNode child debugName) childNodes;
          OK (mkAbstractNode tag attrs children)
      end
  end.

(** The message of the size assertion. *)
Definition size_message (size : list number) (debugName : option string) : string :=
  "The size tuple should be [ width, height ], but got [ "
  +:+ show_optional_number (size !! 0%nat) +:+ ", "
  +:+ show_optional_number (size !! 1%nat) +:+ " ] ["
  +:+ show_optional debugName +:+ "]".

(** The tail of a [viewBox] value: the tokens after the first two. *)
Definition viewBox_tail (value : string) : list string :=
  slice 2 (split " " value).

(** A direct child that counts as a path node on the first level. *)
Definition is_oneLevelPathNode (child : Node) : bool :=
  negb (String.eqb (nodeName child) "style")
  && Nat.eqb (List.length (childNodes child)) 0.

(** Parse the node generated by the markup parser into the abstract
    tree.  [node] is the node that needs parsing ([None] when the caller
    hands over [null] or [undefined]); [debugName] is used in the assert
    statements. *)
Definition generateAbstractTree (node : option Node) (debugName : option string)
  : result AbstractNode :=
  match node with
  | None => Throw (AssertionError debugName)
  | Some node =>
      assert (bool_decide (tagName node = Some "svg")) debugName;;
      let viewBox := List.find (fun a => String.eqb (name a) "viewBox") (attrs node) in
      match viewBox with
      | None => Throw (AssertionError debugName)
      | Some viewBox =>
          let size := map parseInt (viewBox_tail (value viewBox)) in
          assert (Nat.eqb (List.length size) 2) (Some (size_message size debugName));;
          let oneLevelPathNodes := filter (fun c => is_oneLevelPathNode c = true)
                                          (childNodes node) in
          assert (Nat.leb 1 (List.length oneLevelPathNodes)) debugName;;
          normalizeNode node debugName
      end
  end.

(** ** The theme naming functions *)

Definition getIdentifier (identifier : string) (theme : ThemeType) : result string :=
  if String.eqb theme "fill" then OK (identifier +:+ "Fill")
  else if String.eqb theme "outline" then OK (identifier +:+ "Outline")
  else if String.eqb theme "twotone" then OK (identifier +:+ "TwoTone")
  else Throw (TypeError ("Unknown theme type: " +:+ theme
                         +:+ ", identifier: " +:+ identifier)).

Definition withSuffix (name : string) (theme : ThemeType) : result string :=
  if String.eqb theme "fill" then OK (name +:+ "-fill")
  else if String.eqb theme "outline" then OK (name +:+ "-o")
  else if String.eqb theme "twotone" then OK (name +:+ "-twotone")
  else Throw (TypeError ("Unknown theme type: " +:+ theme
                         +:+ ", name: " +:+ name)).

(** ** The rollback lookup *)

(** The path probed for one candidate theme. *)
Definition theme_url `{Path} (env : Environment) (kebabCaseName : string)
    (theme : ThemeType) : string :=
  path_resolve [SVG_DIR (paths env); theme; kebabCaseName +:+ ".svg"].

(** The [for ... of] loop over the candidate paths and the [throw] behind
    it: the body returns the theme when the probe returns, and the empty
    [catch] lets the loop go on to the next candidate when it throws. *)
Fixpoint rollback_loop `{Fs} (kebabCaseName : string)
    (paths : list (ThemeType * string)) : result ThemeType :=
  match paths with
  | [] => Throw (Error ("There is no SVG of the icon: " +:+ kebabCaseName))
  | (theme, url) :: rest =>
      match fs_accessSync url with
      | OK _ => OK theme
      | Throw _ => rollback_loop kebabCaseName rest
      end
  end.

Definition getRollbackTheme `{Path} `{Fs} (env : Environment)
    (kebabCaseName : string) (rollbackList : list ThemeType) : result ThemeType :=
  let paths := map (fun theme => (theme, theme_url env kebabCaseName theme))
                   rollbackList in
  rollback_loop kebabCaseName paths.

Definition isAccessable `{Fs} (url : string) : bool :=
  match fs_accessSync url with
  | OK _ => true
  | Throw _ => false
  end.

(** ** The name table *)

(** The callback of the [map] in [theseShouldBeWithTheme]. *)
Definition name_entry `{Lodash} (theme : ThemeType) (isKebabCase : bool)
    (basicName : string) : result (string * string) :=
  value ← (if isKebabCase then withSuffix basicName theme
           else getIdentifier (lodash_upperFirst (lodash_camelCase basicName)) theme);
  OK (basicName, value).

(** The reducer of [theseShouldBeWithTheme]. *)
Definition assign_entry (acc : gmap string string) (entry : string * string)
  : gmap string string :=
  Js.set acc entry.1 entry.2.

(** The table from base name to derived name; an absent [isKebabCase]
    counts as [false]. *)
Definition theseShouldBeWithTheme `{Lodash} (basicNames : list string)
    (theme : ThemeType) (isKebabCase : bool) : result (gmap string string) :=
  entries ← mapE (name_entry theme isKebabCase) basicNames;
  OK (foldl assign_entry ∅ entries).

(** ** Vocabulary of the properties *)

(** The attribute [generateAbstractTree] looks up. *)
Definition find_viewBox (node : Node) : option Attribute :=
  List.find (fun a => String.eqb (name a) "viewBox") (attrs node).

(** The two exceptions [normalizeNode] can raise. *)
Definition no_tag_error (debugName : option string) : error :=
  TypeError (show_optional debugName +:+ " Element should have no no-tag node").

Definition redefine_error (name : string) : error :=
  TypeError ("Cannot redefine property: " +:+ name).

(** A node and all its descendants, in document order. *)
Fixpoint subnodes (node : Node) : list Node :=
  match node with
  | mkNode _ _ _ childNodes => node :: List.flat_map subnodes childNodes
  end.

Fixpoint abstract_subnodes (t : AbstractNode) : list AbstractNode :=
  match t with
  | mkAbstractNode _ _ children => t :: List.flat_map abstract_subnodes children
  end.

(** No two attributes of the node have the same name. *)
Definition unique_attrs (node : Node) : Prop :=
  NoDup (map name (attrs node)).

(** Every node of the subtree has a non-empty tag name and attributes
    with pairwise different names. *)
Fixpoint well_formed (node : Node) : bool :=
  match node with
  | mkNode _ tagName attrs childNodes =>
      negb (no_tag tagName)
      && bool_decide (NoDup (map name attrs))
      && forallb well_formed childNodes
  end.

(** The mapping [m] has exactly one entry per attribute of the list, with
    the attribute's value. *)
Definition one_entry_per_attribute (attrs : list Attribute) (m : gmap string string)
  : Prop :=
  (forall k v, m !! k = Some v <-> mkAttribute k v ∈ attrs)
  /\ size m = List.length attrs.

(** Two attributes of the list that share a name also share their value. *)
Definition functional (l : list Attribute) : Prop :=
  forall a b, a ∈ l -> b ∈ l -> name a = name b -> value a = value b.

(** The list agrees with what the mapping already holds. *)
Definition agrees (m : gmap string string) (l : list Attribute) : Prop :=
  forall a v, a ∈ l -> m !! name a = Some v -> v = value a.

(** The drawable-leaf test with the child's name read from [tagName]. *)
Definition is_drawable_leaf_by_tagName (child : Node) : bool :=
  negb (bool_decide (tagName child = Some "style"))
  && Nat.eqb (List.length (childNodes child)) 0.

(** The derived name of a base name: its kebab name, or the identifier
    of its PascalCase form. *)
Definition derived_name `{Lodash} (theme : ThemeType) (isKebabCase : bool)
    (basicName : string) : result string :=
  if isKebabCase then withSuffix basicName theme
  else getIdentifier (lodash_upperFirst (lodash_camelCase basicName)) theme.

(** The evaluation returned. *)
Definition returns {A : Type} (r : result A) : bool :=
  match r with
  | OK _ => true
  | Throw _ => false
  end.

(** ** Sample inputs *)

Definition path_close : Node :=
  mkNode "path" (Some "path") [mkAttribute "d" "M563.8 512l262.5-312.9"] [].

(** A well-formed icon. *)
Definition svg_close : Node :=
  mkNode "svg" (Some "svg") [mkAttribute "viewBox" "0 0 1024 1024"] [path_close].

(** The size tokens are not numbers. *)
Definition svg_nan : Node :=
  mkNode "svg" (Some "svg") [mkAttribute "viewBox" "0 0 a b"] [path_close].

(** The height is missing. *)
Definition svg_short : Node :=
  mkNode "svg" (Some "svg") [mkAttribute "viewBox" "0 0 1024"] [path_close].

(** No [viewBox] at all. *)
Definition svg_bare : Node :=
  mkNode "svg" (Some "svg") [mkAttribute "fill" "none"] [path_close].

(** The only child is a group with a path inside. *)
Definition svg_group : Node :=
  mkNode "svg" (Some "svg") [mkAttribute "viewBox" "0 0 1024 1024"]
    [mkNode "g" (Some "g") [] [path_close]].

(** A child without a tag name, next to a path. *)
Definition svg_text_child : Node :=
  mkNode "svg" (Some "svg") [mkAttribute "viewBox" "0 0 1024 1024"]
    [path_close; mkNode "#text" None [] []].

(** The same attribute twice with the same value, and with two values. *)
Definition g_repeated : Node :=
  mkNode "g" (Some "g") [mkAttribute "fill" "red"; mkAttribute "fill" "red"] [].

Definition g_conflict : Node :=
  mkNode "g" (Some "g") [mkAttribute "fill" "red"; mkAttribute "fill" "blue"] [].

(** A path module that joins its segments with a slash, a file system in
    which only the outline variant of [close] exists, one in which the
    same probes fail for another reason, and a stand-in for the case
    conversions. *)
Definition join_path : Path :=
  {| path_resolve := String.concat "/" |}.

Definition fs_outline_only : Fs :=
  {| fs_accessSync := fun url =>
       if String.eqb url "/svg/outline/close.svg" then OK tt
       else Throw (SystemError "ENOENT") |}.

Definition fs_outline_only_denied : Fs :=
  {| fs_accessSync := fun url =>
       if String.eqb url "/svg/outline/close.svg" then OK tt
       else Throw (SystemError "EACCES") |}.

Definition fs_empty : Fs :=
  {| fs_accessSync := fun _ => Throw (SystemError "ENOENT") |}.

Definition env_svg : Environment :=
  mkEnvironment (mkPaths "/svg") "/".

Definition lodash_identity : Lodash :=
  {| lodash_camelCase := fun s => s; lodash_upperFirst := fun s => s |}.

(** ** Logging and clearing the output *)

(** The colouring functions of [chalk]. *)
Class Chalk : Type := {
  chalk_green : string -> string;
  chalk_blueBright : string -> string
}.

(** [path.relative(from, to)]. *)
Class Relative : Type := {
  path_relative : string -> string -> string
}.

(** What [clear] does to the outside world before it hands back its
    promise: lines written with [console.log], and directories or globs
    handed to [rimraf]. *)
Inductive effect : Type :=
  | ConsoleLog (line : string)
  | Rimraf (target : string).

(** [log.info(message)] and [log.notice(message)]. *)
Definition log_info `{Chalk} (message : string) : effect :=
  ConsoleLog (chalk_green ("🌟 [Generate] " +:+ message)).

Definition log_notice `{Chalk} (message : string) : effect :=
  ConsoleLog (chalk_blueBright ("🌟 [Notice] " +:+ message)).

(** [s.endsWith(suffix)]. *)
Fixpoint endsWith (s suffix : string) : bool :=
  String.eqb s suffix
  || match s with
     | EmptyString => false
     | String _ rest => endsWith rest suffix
     end.

(** The callback of the [map] in [clear], for the path stored under one
    key: it logs the deletion and starts [rimraf] inside the promise it
    creates. *)
Definition delete_entry `{Chalk} `{Relative} (env : Environment)
    (entry : string * string) : list effect :=
  [log_notice ("Delete " +:+ path_relative (base env) entry.2 +:+ ".");
   Rimraf entry.2].

(** Clear by using [rimraf].  [paths] lists the own properties of
    [env.paths], key and value, in the order [Object.keys] reports them.
    The result is the sequence of effects of the synchronous part of the
    call; the completion of the promises is not part of the model. *)
Definition clear `{Chalk} `{Relative} (env : Environment)
    (paths : list (string * string)) : list effect :=
  log_notice "Clear folders."
  :: List.flat_map (delete_entry env)
       (List.filter (fun entry : string * string => endsWith entry.1 "OUTPUT") paths).

(** ** Further vocabulary *)

(** The tree with every [nodeName] replaced. *)
Fixpoint rename_nodes (f : string -> string) (node : Node) : Node :=
  match node with
  | mkNode nodeName tagName attrs childNodes =>
      mkNode (f nodeName) tagName attrs (map (rename_nodes f) childNodes)
  end.

(** The string holds a space. *)
Fixpoint has_space (s : string) : bool :=
  match s with
  | EmptyString => false
  | String c rest => Ascii.eqb c " " || has_space rest
  end.

(** A node of the tree can be normalised: it has a tag name, and its
    attributes of the same name carry the same value. *)
Definition normalizable (n : Node) : Prop :=
  no_tag (tagName n) = false /\ functional (attrs n).

(** An abstract node mirrors a source node: same tag, one entry for
    every attribute, as many children. *)
Definition mirrors (n : Node) (a : AbstractNode) : Prop :=
  tagName n = Some (tag a)
  /\ (forall k v, abstract_attrs a !! k = Some v <-> mkAttribute k v ∈ attrs n)
  /\ List.length (children a) = List.length (childNodes n).

(** ** Further sample inputs *)

(** The paths of the environment the build test sets up, by key. *)
Definition test_paths : list (string * string) :=
  [("SVG_DIR", "/test/root/svg");
   ("ICON_TEMPLATE", "/build/templates/icon.ts.template");
   ("INDEX_TEMPLATE", "/build/templates/index.ts.template");
   ("MANIFEST_TEMPLATE", "/build/templates/manifest.ts.template");
   ("TWO_TONE_ICON_TEMPLATE", "/build/templates/twoToneIcon.ts.template");
   ("MAP_NAME_TO_IDENTIFIER_TEMPLATE",
    "/build/templates/mapNameToIdentifier.ts.template");
   ("MANIFEST_OUTPUT", "/test/root/src/manifest.ts");
   ("ICON_OUTPUT_DIR", "/test/root/src/");
   ("THEME_FILL_OUTPUT", "/test/root/src/fill/*.ts");
   ("THEME_OUTLINE_OUTPUT", "/test/root/src/outline/*.ts");
   ("THEME_TWO_TONE_OUTPUT", "/test/root/src/twotone/*.ts");
   ("INDEX_OUTPUT", "/test/root/src/index.ts");
   ("MAP_NAME_TO_IDENTIFIER_OUTPUT", "/test/root/src/mapNameToIdentifier.ts")].

Definition chalk_plain : Chalk :=
  {| chalk_green := fun s => s; chalk_blueBright := fun s => s |}.

Definition relative_same : Relative :=
  {| path_relative := fun _ to => to |}.

(** A group inside the icon, with a path below it. *)
Definition svg_nested : Node :=
  mkNode "svg" (Some "svg")
    [mkAttribute "viewBox" "0 0 1024 1024"; mkAttribute "focusable" "false"]
    [mkNode "g" (Some "g") [mkAttribute "fill" "none"] [path_close]; path_close].

(** * Properties *)

(** ** Induction over nodes *)

Lemma Node_ind (P : Node -> Prop) :
  (forall nodeName tagName attrs childNodes,
      Forall P childNodes -> P (mkNode nodeName tagName attrs childNodes)) ->
  forall node, P node.
Proof.
  intros step. fix IH 1. intros [nn tn at_ cs].
  apply step. induction cs as [|c cs IHcs]; constructor; [apply IH | exact IHcs].
Qed.

(** ** The error monad and the traversal *)

Lemma bind_OK {A B : Type} (r : result A) (k : A -> result B) (b : B) :
  (r ≫= k) = OK b <-> exists a, r = OK a /\ k a = OK b.
Proof.
  destruct r as [a|e]; simpl; split.
  - intros H. exists a. split; [reflexivity | exact H].
  - intros (a' & [= <-] & H). exact H.
  - discriminate.
  - intros (a' & [=] & _).
Qed.

Lemma mapE_OK {A B : Type} (f : A -> result B) (l : list A) (ys : list B) :
  mapE f l = OK ys <-> Forall2 (fun x y => f x = OK y) l ys.
Proof.
  revert ys. induction l as [|x l IH]; intros ys; simpl.
  - split.
    + intros [= <-]. constructor.
    + intros H. inversion H. reflexivity.
  - split.
    + destruct (f x) as [y|e] eqn:Hx; [|discriminate].
      destruct (mapE f l) as [ys'|e] eqn:Hl; [|discriminate].
      intros [= <-]. constructor; [exact Hx | apply IH; reflexivity].
    + intros H. inversion H as [|x' y l' ys' Hx Hl]; subst.
      rewrite Hx. apply IH in Hl. rewrite Hl. reflexivity.
Qed.

Lemma mapE_Throw {A B : Type} (f : A -> result B) (l : list A) (e : error) :
  mapE f l = Throw e ->
  exists l1 x l2, l = l1 ++ x :: l2 /\ f x = Throw e
                  /\ Forall (fun x' => returns (f x') = true) l1.
Proof.
  induction l as [|x l IH]; simpl; [discriminate|].
  destruct (f x) as [y|e'] eqn:Hx.
  - destruct (mapE f l) as [ys|e'] eqn:Hl; [discriminate|].
    intros [= ->]. destruct (IH eq_refl) as (l1 & x' & l2 & -> & Hx' & Hl1).
    exists (x :: l1), x', l2. split; [reflexivity|]. split; [exact Hx'|].
    constructor; [rewrite Hx; reflexivity | exact Hl1].
  - intros [= ->]. exists [], x, l. split; [reflexivity|]. split; [exact Hx|].
    constructor.
Qed.

Lemma mapE_total {A B : Type} (f : A -> result B) (l : list A) :
  Forall (fun x => returns (f x) = true) l -> exists ys, mapE f l = OK ys.
Proof.
  induction 1 as [|x l Hx _ [ys IH]]; simpl.
  - exists []. reflexivity.
  - destruct (f x) as [y|e]; [|discriminate]. rewrite IH. exists (y :: ys). reflexivity.
Qed.

Lemma mapE_fails {A B : Type} (f : A -> result B) (l : list A) (x : A) :
  x ∈ l -> returns (f x) = false -> returns (mapE f l) = false.
Proof.
  induction 1 as [x l|x y l _ IH]; simpl; intros Hx.
  - destruct (f x); [discriminate | reflexivity].
  - destruct (f y); [|reflexivity]. specialize (IH Hx).
    destruct (mapE f l); [discriminate | reflexivity].
Qed.

(** ** Building the attribute mapping *)

Lemma reduce_Throw (l : list Attribute) (e : error) :
  foldl reduce_step (Throw e) l = Throw e.
Proof. induction l as [|a l IH]; simpl; [reflexivity | exact IH]. Qed.

Lemma reduce_cons (m : gmap string string) (a : Attribute) (l : list Attribute) :
  foldl reduce_step (OK m) (a :: l)
  = foldl reduce_step (defineProperty m (name a) (value a)) l.
Proof. reflexivity. Qed.

(** What the fold computes from a mapping [m]: the entries of [m] and of
    the list when these do not contradict each other, and otherwise the
    redefinition error of an attribute whose name was already bound to
    another value. *)
Lemma reduce_spec (l : list Attribute) (m : gmap string string) :
  match foldl reduce_step (OK m) l with
  | OK m' =>
      functional l /\ agrees m l
      /\ forall k v, m' !! k = Some v <-> m !! k = Some v \/ mkAttribute k v ∈ l
  | Throw e =>
      exists a v, a ∈ l /\ e = redefine_error (name a) /\ v <> value a
                  /\ (m !! name a = Some v
                      \/ exists b, b ∈ l /\ name b = name a /\ value b = v)
  end.
Proof.
  revert m. induction l as [|a l IH]; intros m.
  - simpl. split; [|split].
    + intros a b Ha. inversion Ha.
    + intros a v Ha. inversion Ha.
    + intros k v. split; [auto|]. intros [H|H]; [exact H | inversion H].
  - rewrite reduce_cons. unfold defineProperty.
    destruct (m !! name a) as [cur|] eqn:Hcur.
    + destruct (decide (cur = value a)) as [->|Hne].
      * specialize (IH m). destruct (foldl reduce_step (OK m) l) as [m'|e].
        -- destruct IH as (Hfun & Hagr & Hm'). split; [|split].
           ++ intros x y Hx Hy Hxy.
              apply elem_of_cons in Hx as [->|Hx]; apply elem_of_cons in Hy as [->|Hy].
              ** reflexivity.
              ** apply (Hagr y _ Hy). rewrite <- Hxy. exact Hcur.
              ** symmetry. apply (Hagr x _ Hx). rewrite Hxy. exact Hcur.
              ** apply Hfun; assumption.
           ++ intros x v Hx Hv. apply elem_of_cons in Hx as [->|Hx].
              ** congruence.
              ** apply (Hagr x v Hx Hv).
           ++ intros k v. rewrite Hm', elem_of_cons. split; [tauto|].
              intros [H|[H|H]]; [tauto | | tauto].
              left. destruct a as [n w]. injection H as <- <-. exact Hcur.
        -- destruct IH as (x & v & Hx & -> & Hv & Hc).
           exists x, v. split; [apply elem_of_cons; tauto|]. split; [reflexivity|].
           split; [exact Hv|]. destruct Hc as [Hc|(b & Hb & Hnb & Hvb)]; [tauto|].
           right. exists b. split; [apply elem_of_cons; tauto | tauto].
      * rewrite reduce_Throw. exists a, cur.
        split; [apply elem_of_cons; tauto|]. split; [reflexivity|].
        split; [exact Hne | tauto].
    + specialize (IH (<[name a := value a]> m)).
      destruct (foldl reduce_step (OK (<[name a := value a]> m)) l) as [m'|e].
      * destruct IH as (Hfun & Hagr & Hm'). split; [|split].
        -- intros x y Hx Hy Hxy.
           apply elem_of_cons in Hx as [->|Hx]; apply elem_of_cons in Hy as [->|Hy].
           ** reflexivity.
           ** apply (Hagr y _ Hy). rewrite <- Hxy. apply lookup_insert_eq.
           ** symmetry. apply (Hagr x _ Hx). rewrite Hxy. apply lookup_insert_eq.
           ** apply Hfun; assumption.
        -- intros x v Hx Hv. apply elem_of_cons in Hx as [->|Hx]; [congruence|].
           apply (Hagr x v Hx). rewrite lookup_insert_ne; [exact Hv | congruence].
        -- intros k v. rewrite Hm', elem_of_cons.
           destruct (decide (name a = k)) as [<-|Hk].
           ++ rewrite lookup_insert_eq, Hcur. split.
              ** intros [[= <-]|H]; [|tauto]. right. left. destruct a; reflexivity.
              ** intros [[=]|[H|H]]; [|tauto]. left.
                 destruct a as [n w]. simpl in *. injection H as ->. reflexivity.
           ++ rewrite lookup_insert_ne by exact Hk. split; [tauto|].
              intros [H|[H|H]]; [tauto | | tauto].
              exfalso. apply Hk. rewrite <- H. reflexivity.
      * destruct IH as (x & v & Hx & -> & Hv & Hc).
        exists x, v. split; [apply elem_of_cons; tauto|]. split; [reflexivity|].
        split; [exact Hv|]. destruct Hc as [Hc|(b & Hb & Hnb & Hvb)].
        -- destruct (decide (name a = name x)) as [Hax|Hax].
           ++ rewrite <- Hax, lookup_insert_eq in Hc. injection Hc as <-.
              right. exists a. split; [apply elem_of_cons; tauto | tauto].
           ++ rewrite lookup_insert_ne in Hc by exact Hax. tauto.
        -- right. exists b. split; [apply elem_of_cons; tauto | tauto].
Qed.

Lemma reduce_fresh (l : list Attribute) (m : gmap string string) :
  NoDup (map name l) -> (forall a, a ∈ l -> m !! name a = None) ->
  exists m', foldl reduce_step (OK m) l = OK m'
             /\ size m' = (size m + List.length l)%nat.
Proof.
  revert m. induction l as [|a l IH]; intros m Hnd Hfresh.
  - exists m. split; [reflexivity | simpl; lia].
  - rewrite reduce_cons. unfold defineProperty.
    rewrite (Hfresh a) by (apply elem_of_cons; tauto).
    simpl in Hnd. apply NoDup_cons in Hnd as [Ha Hnd].
    destruct (IH (<[name a := value a]> m) Hnd) as (m' & Hm' & Hsize).
    + intros b Hb. rewrite lookup_insert_ne.
      * apply Hfresh. apply elem_of_cons. tauto.
      * intros Hab. apply Ha. rewrite Hab. apply list_elem_of_In, in_map.
        apply list_elem_of_In. exact Hb.
    + exists m'. split; [exact Hm'|]. rewrite Hsize.
      rewrite map_size_insert_None by (apply Hfresh, elem_of_cons; tauto).
      simpl. lia.
Qed.

(** With pairwise different names the fold returns, and the mapping has
    exactly one entry per attribute. *)
Lemma reduce_attrs_unique (l : list Attribute) :
  NoDup (map name l) ->
  exists m, reduce_attrs l = OK m /\ one_entry_per_attribute l m.
Proof.
  intros Hnd. destruct (reduce_fresh l ∅ Hnd) as (m & Hm & Hsize).
  - intros a _. apply lookup_empty.
  - exists m. split; [exact Hm|]. split.
    + pose proof (reduce_spec l ∅) as Hspec. unfold reduce_attrs in Hm.
      rewrite Hm in Hspec. destruct Hspec as (_ & _ & Hlook).
      intros k v. rewrite Hlook, lookup_empty. split; [|tauto].
      intros [[=]|H]. exact H.
    + rewrite Hsize, map_size_empty. reflexivity.
Qed.

(** The fold returns exactly on the lists in which attributes of the same
    name carry the same value. *)
Lemma reduce_attrs_returns (l : list Attribute) :
  returns (reduce_attrs l) = true <-> functional l.
Proof.
  pose proof (reduce_spec l ∅) as Hspec. unfold reduce_attrs.
  destruct (foldl reduce_step (OK ∅) l) as [m|e]; simpl.
  - destruct Hspec as (Hfun & _). tauto.
  - split; [discriminate|]. intros Hfun.
    destruct Hspec as (a & v & Ha & _ & Hv & [Hc|(b & Hb & Hn & Hvb)]).
    + rewrite lookup_empty in Hc. discriminate.
    + exfalso. apply Hv. rewrite <- Hvb. apply Hfun; assumption.
Qed.

(** The only exception of the fold is a redefinition error. *)
Lemma reduce_attrs_Throw (l : list Attribute) (e : error) :
  reduce_attrs l = Throw e -> exists a, a ∈ l /\ e = redefine_error (name a).
Proof.
  intros H. pose proof (reduce_spec l ∅) as Hspec. unfold reduce_attrs in H.
  rewrite H in Hspec. destruct Hspec as (a & v & Ha & -> & _). eauto.
Qed.

(** ** Normalising a node *)

Lemma normalizeNode_unfold (node : Node) (debugName : option string) :
  normalizeNode node debugName =
  if no_tag (tagName node) then Throw (no_tag_error debugName)
  else
    attrs ← reduce_attrs (attrs node);
    children ← mapE (fun child => normalizeNode child debugName) (childNodes node);
    OK (mkAbstractNode (default "" (tagName node)) attrs children).
Proof.
  destruct node as [nn [[|c t]|] at_ cs]; reflexivity.
Qed.

Lemma no_tag_false (t : option string) :
  no_tag t = false <-> exists s, t = Some s /\ s <> "".
Proof.
  destruct t as [[|c s]|]; simpl; split; try discriminate.
  - intros (s & [= <-] & H). congruence.
  - intros _. eexists. split; [reflexivity | discriminate].
  - reflexivity.
  - intros (s & [=] & _).
Qed.

(** The shape of a returned tree. *)
Lemma normalizeNode_OK (node : Node) (debugName : option string) (t : AbstractNode) :
  normalizeNode node debugName = OK t <->
  no_tag (tagName node) = false
  /\ tagName node = Some (tag t)
  /\ reduce_attrs (attrs node) = OK (abstract_attrs t)
  /\ Forall2 (fun c c' => normalizeNode c debugName = OK c')
             (childNodes node) (children t).
Proof.
  rewrite normalizeNode_unfold. split.
  - destruct (no_tag (tagName node)) eqn:Htag; [discriminate|].
    intros H. apply bind_OK in H as (m & Hm & H).
    apply bind_OK in H as (cs & Hcs & [= <-]). simpl.
    apply no_tag_false in Htag as (s & Hs & _). rewrite Hs. simpl.
    split; [reflexivity|]. split; [reflexivity|]. split; [exact Hm|].
    apply mapE_OK. exact Hcs.
  - intros (Htag & Ht & Hm & Hcs). rewrite Htag, Hm. simpl.
    apply mapE_OK in Hcs. rewrite Hcs. simpl. rewrite Ht. destruct t; reflexivity.
Qed.

Lemma subnodes_unfold (node : Node) :
  subnodes node = node :: List.flat_map subnodes (childNodes node).
Proof. destruct node; reflexivity. Qed.

Lemma abstract_subnodes_unfold (t : AbstractNode) :
  abstract_subnodes t = t :: List.flat_map abstract_subnodes (children t).
Proof. destruct t; reflexivity. Qed.

Lemma well_formed_unfold (node : Node) :
  well_formed node =
  negb (no_tag (tagName node))
  && bool_decide (NoDup (map name (attrs node)))
  && forallb well_formed (childNodes node).
Proof. destruct node; reflexivity. Qed.

Lemma elem_of_flat_map {A B : Type} (f : A -> list B) (l : list A) (y : B) :
  y ∈ List.flat_map f l <-> exists x, x ∈ l /\ y ∈ f x.
Proof.
  rewrite list_elem_of_In, in_flat_map. split; intros (x & Hx & Hy); exists x.
  - split; apply list_elem_of_In; assumption.
  - split; apply list_elem_of_In; assumption.
Qed.

(** An exception of [normalizeNode] is the no-tag error, or the
    redefinition error of an attribute of a visited node whose attribute
    list binds one name to two values. *)
Lemma normalizeNode_Throw (debugName : option string) (node : Node) (e : error) :
  normalizeNode node debugName = Throw e ->
  e = no_tag_error debugName
  \/ exists n a, n ∈ subnodes node /\ ~ functional (attrs n)
                 /\ a ∈ attrs n /\ e = redefine_error (name a).
Proof.
  revert e. induction node as [nn tn at_ cs IH] using Node_ind. intros e.
  rewrite normalizeNode_unfold. simpl.
  destruct (no_tag tn); [intros [= <-]; tauto|].
  destruct (reduce_attrs at_) as [m|e'] eqn:Hm; simpl.
  - destruct (mapE _ cs) as [ys|e'] eqn:Hcs; simpl; [discriminate|].
    intros [= ->]. apply mapE_Throw in Hcs as (l1 & c & l2 & -> & Hc & _).
    apply Forall_app in IH as [_ IH]. apply Forall_cons in IH as [IH _].
    destruct (IH e Hc) as [->|(n & a & Hn & Hfun & Ha & ->)]; [tauto|].
    right. exists n, a. split; [|tauto].
    apply elem_of_cons. right. apply elem_of_flat_map. exists c. split; [|exact Hn].
    apply elem_of_app. right. apply elem_of_cons. tauto.
  - intros [= ->]. right. destruct (reduce_attrs_Throw _ _ Hm) as (a & Ha & ->).
    exists (mkNode nn tn at_ cs), a. split.
    + apply elem_of_cons. tauto.
    + split; [|tauto]. simpl. intros Hfun. apply reduce_attrs_returns in Hfun.
      rewrite Hm in Hfun. discriminate.
Qed.

(** A node without a tag name anywhere in the tree makes the call throw. *)
Lemma normalizeNode_no_tag_below (debugName : option string) (node n : Node) :
  n ∈ subnodes node -> no_tag (tagName n) = true ->
  returns (normalizeNode node debugName) = false.
Proof.
  revert n. induction node as [nn tn at_ cs IH] using Node_ind. intros n.
  rewrite subnodes_unfold, normalizeNode_unfold. simpl.
  intros Hn Htag. apply elem_of_cons in Hn as [->|Hn].
  - simpl in Htag. rewrite Htag. reflexivity.
  - destruct (no_tag tn); [reflexivity|].
    destruct (reduce_attrs at_) as [m|e]; [|reflexivity]. simpl.
    apply elem_of_flat_map in Hn as (c & Hc & Hn).
    rewrite Forall_forall in IH. specialize (IH c Hc n Hn Htag).
    pose proof (mapE_fails (fun child => normalizeNode child debugName) cs c Hc IH) as H.
    destruct (mapE _ cs); [discriminate | reflexivity].
Qed.

(** Every node of a returned tree has a non-empty tag. *)
Lemma normalizeNode_tags (debugName : option string) (node : Node) (t : AbstractNode) :
  normalizeNode node debugName = OK t ->
  Forall (fun a => tag a <> "") (abstract_subnodes t).
Proof.
  revert t. induction node as [nn tn at_ cs IH] using Node_ind. intros t H.
  apply normalizeNode_OK in H as (Htag & Ht & _ & Hcs). simpl in *.
  rewrite abstract_subnodes_unfold. constructor.
  - apply no_tag_false in Htag as (s & Hs & Hne). congruence.
  - clear Ht Htag. induction Hcs as [|c c' cs cs' Hc Hcs IHcs]; simpl; [constructor|].
    apply Forall_cons in IH as [IHc IH]. apply Forall_app. split; [|apply IHcs; exact IH].
    apply IHc. exact Hc.
Qed.

(** A well-formed tree is normalised without an exception. *)
Lemma normalizeNode_well_formed (debugName : option string) (node : Node) :
  well_formed node = true -> returns (normalizeNode node debugName) = true.
Proof.
  induction node as [nn tn at_ cs IH] using Node_ind.
  rewrite well_formed_unfold, normalizeNode_unfold. simpl.
  intros H. apply andb_true_iff in H as [H Hcs]. apply andb_true_iff in H as [Htag Hnd].
  apply negb_true_iff in Htag. rewrite Htag. apply bool_decide_eq_true in Hnd.
  destruct (reduce_attrs_unique at_ Hnd) as (m & -> & _). simpl.
  destruct (mapE_total (fun child => normalizeNode child debugName) cs) as [ys ->];
    [|reflexivity].
  rewrite forallb_forall in Hcs. rewrite Forall_forall in IH |- *.
  intros c Hc. apply IH; [exact Hc|]. apply Hcs, list_elem_of_In. exact Hc.
Qed.

(** ** Validating the root *)

Lemma filter_nonempty {A : Type} (p : A -> bool) (l : list A) :
  Nat.leb 1 (List.length (filter (fun x => p x = true) l)) = existsb p l.
Proof.
  induction l as [|x l IH]; [reflexivity|].
  rewrite filter_cons. simpl. destruct (decide (p x = true)) as [Hx|Hx].
  - rewrite Hx. reflexivity.
  - apply not_true_is_false in Hx. rewrite Hx. exact IH.
Qed.

Lemma existsb_elem_of {A : Type} (p : A -> bool) (l : list A) :
  existsb p l = true <-> exists x, x ∈ l /\ p x = true.
Proof.
  rewrite existsb_exists. split; intros (x & Hx & Hp); exists x;
    (split; [apply list_elem_of_In; exact Hx | exact Hp]).
Qed.

(** The checks of [generateAbstractTree] on a root whose tag is [svg],
    one after the other. *)
Lemma generateAbstractTree_svg (node : Node) (debugName : option string) :
  tagName node = Some "svg" ->
  generateAbstractTree (Some node) debugName =
  match find_viewBox node with
  | None => Throw (AssertionError debugName)
  | Some viewBox =>
      let tail := viewBox_tail (value viewBox) in
      if Nat.eqb (List.length tail) 2 then
        if existsb is_oneLevelPathNode (childNodes node)
        then normalizeNode node debugName
        else Throw (AssertionError debugName)
      else Throw (AssertionError (Some (size_message (map parseInt tail) debugName)))
  end.
Proof.
  intros Hsvg. unfold generateAbstractTree, find_viewBox.
  rewrite bool_decide_eq_true_2 by exact Hsvg. simpl.
  destruct (find _ (attrs node)) as [vb|]; [|reflexivity].
  rewrite length_map.
  destruct (Nat.eqb (List.length (viewBox_tail (value vb))) 2); [|reflexivity].
  pose proof (filter_nonempty is_oneLevelPathNode (childNodes node)) as Hleaf.
  simpl in *. rewrite Hleaf.
  destruct (existsb is_oneLevelPathNode (childNodes node)); reflexivity.
Qed.

Lemma generateAbstractTree_not_svg (node : Node) (debugName : option string) :
  tagName node <> Some "svg" ->
  generateAbstractTree (Some node) debugName = Throw (AssertionError debugName).
Proof.
  intros Hsvg. unfold generateAbstractTree.
  rewrite bool_decide_eq_false_2 by exact Hsvg. reflexivity.
Qed.

(** A tree returned by [generateAbstractTree] is the one [normalizeNode]
    returns for the same root. *)
Lemma generateAbstractTree_returns (node : option Node) (debugName : option string) :
  returns (generateAbstractTree node debugName) = true ->
  exists root, node = Some root
               /\ generateAbstractTree node debugName = normalizeNode root debugName.
Proof.
  destruct node as [root|]; [|discriminate]. intros H. exists root.
  split; [reflexivity|].
  destruct (decide (tagName root = Some "svg")) as [Hsvg|Hsvg].
  - rewrite generateAbstractTree_svg in H |- * by exact Hsvg.
    destruct (find_viewBox root) as [vb|]; [|discriminate]. simpl in *.
    destruct (Nat.eqb _ 2); [|discriminate].
    destruct (existsb _ _); [reflexivity | discriminate].
  - rewrite generateAbstractTree_not_svg in H by exact Hsvg. discriminate.
Qed.

Lemma is_oneLevelPathNode_spec (child : Node) :
  is_oneLevelPathNode child = true <->
  nodeName child <> "style" /\ childNodes child = [].
Proof.
  unfold is_oneLevelPathNode. rewrite andb_true_iff, negb_true_iff.
  rewrite String.eqb_neq, Nat.eqb_eq. split; intros [H1 H2]; (split; [exact H1|]).
  - destruct (childNodes child); [reflexivity | discriminate].
  - rewrite H2. reflexivity.
Qed.

(** On children built the way the parser builds elements, with the tag
    name in both fields, the first-level test is the one that reads
    [tagName]. *)
Lemma is_oneLevelPathNode_element (child : Node) :
  tagName child = Some (nodeName child) ->
  is_oneLevelPathNode child = is_drawable_leaf_by_tagName child.
Proof.
  intros Htag. unfold is_oneLevelPathNode, is_drawable_leaf_by_tagName.
  f_equal. f_equal. rewrite Htag.
  destruct (String.eqb (nodeName child) "style") eqn:Hname.
  - apply String.eqb_eq in Hname. rewrite Hname.
    symmetry. apply bool_decide_eq_true. reflexivity.
  - apply String.eqb_neq in Hname.
    symmetry. apply bool_decide_eq_false. congruence.
Qed.

(** ** Numbers as the runtime holds them *)

(** An integer below 2^53 is a double as it stands. *)
Lemma round_to_double_safe (m : Z) :
  (0 <= m < 2 ^ 53)%Z -> round_to_double m = Some m.
Proof.
  intros [Hlow Hhigh]. unfold round_to_double.
  destruct (Z.eq_dec m 0) as [->|Hzero]; [reflexivity|].
  assert (Z.log2 m < 53)%Z as Hlog by (apply Z.log2_lt_pow2; lia).
  replace (Z.log2 m + 1 <=? 53)%Z with true; [reflexivity|].
  symmetry. apply Z.leb_le. lia.
Qed.

(** Beyond 2^53 the size message shows the doubles, not the digits that
    were read. *)
Lemma size_message_shows_doubles :
  size_message (map parseInt ["9007199254740993"; "99999999999999999999999"; "1"])
               (Some "close")
  = "The size tuple should be [ width, height ], but got [ 9007199254740992, 1e+23 ] [close]".
Proof. vm_compute. reflexivity. Qed.

(** ** The claims about the tree builder *)

(** C1, as amended.  On a root whose tag is [svg], a missing [viewBox]
    raises an assertion error carrying the debug label; a [viewBox] whose
    tail (the tokens after the first two, split on single spaces) does not
    have exactly two tokens raises an assertion error whose message names
    the first two parsed values and the debug label; a tail of exactly two
    tokens passes the size check whether or not the tokens parse as
    integers, and the outcome is then that of the remaining steps. *)
Theorem generateAbstractTree_viewBox_check (node : Node) (debugName : option string) :
  tagName node = Some "svg" ->
  (find_viewBox node = None ->
   generateAbstractTree (Some node) debugName = Throw (AssertionError debugName))
  /\ (forall viewBox,
        find_viewBox node = Some viewBox ->
        List.length (viewBox_tail (value viewBox)) <> 2%nat ->
        generateAbstractTree (Some node) debugName =
        Throw (AssertionError
                 (Some (size_message (map parseInt (viewBox_tail (value viewBox)))
                                     debugName))))
  /\ (forall viewBox,
        find_viewBox node = Some viewBox ->
        List.length (viewBox_tail (value viewBox)) = 2%nat ->
        generateAbstractTree (Some node) debugName =
        if existsb is_oneLevelPathNode (childNodes node)
        then normalizeNode node debugName
        else Throw (AssertionError debugName)).
Proof.
  intros Hsvg. rewrite (generateAbstractTree_svg node debugName Hsvg).
  split; [|split].
  - intros ->. reflexivity.
  - intros vb -> Hlen. simpl. apply Nat.eqb_neq in Hlen. rewrite Hlen. reflexivity.
  - intros vb -> Hlen. simpl. rewrite Hlen. reflexivity.
Qed.

Lemma generateAbstractTree_viewBox_check_witness :
  generateAbstractTree (Some svg_short) (Some "close") =
  Throw (AssertionError
           (Some "The size tuple should be [ width, height ], but got [ 1024, undefined ] [close]")).
Proof.
  destruct (generateAbstractTree_viewBox_check svg_short (Some "close") eq_refl)
    as (_ & Hsize & _).
  rewrite (Hsize (mkAttribute "viewBox" "0 0 1024")).
  - vm_compute. reflexivity.
  - reflexivity.
  - vm_compute. lia.
Defined.

(** C1, as stated, fails: the tail of the [viewBox] below has exactly two
    tokens, neither of which parses as an integer, and the root is
    accepted. *)
Lemma generateAbstractTree_accepts_NaN_size :
  tagName svg_nan = Some "svg"
  /\ find_viewBox svg_nan = Some (mkAttribute "viewBox" "0 0 a b")
  /\ viewBox_tail "0 0 a b" = ["a"; "b"]
  /\ map parseInt ["a"; "b"] = [NaN; NaN]
  /\ generateAbstractTree (Some svg_nan) (Some "close")
     = normalizeNode svg_nan (Some "close")
  /\ returns (generateAbstractTree (Some svg_nan) (Some "close")) = true.
Proof. vm_compute. repeat split. Qed.

Lemma is_drawable_leaf_by_tagName_spec (child : Node) :
  is_drawable_leaf_by_tagName child = true <->
  tagName child <> Some "style" /\ childNodes child = [].
Proof.
  unfold is_drawable_leaf_by_tagName.
  rewrite andb_true_iff, negb_true_iff, bool_decide_eq_false, Nat.eqb_eq.
  split; intros [H1 H2]; (split; [exact H1|]).
  - destruct (childNodes child); [reflexivity | discriminate].
  - rewrite H2. reflexivity.
Qed.

(** C4.  The direct children are elements as the markup parser builds
    them, with the tag name in [nodeName] and in [tagName] alike.  On
    such a root whose tag is [svg]: when no direct child is a drawable
    leaf, that is, every direct child has the tag name [style] or has
    children of its own, the call fails with an assertion error; when
    some direct child has a tag name other than [style] and no children,
    the leaf check passes, so that a root with a two-token [viewBox] tail
    goes on to be normalised. *)
Theorem generateAbstractTree_leaf_check (node : Node) (debugName : option string) :
  tagName node = Some "svg" ->
  Forall (fun c => tagName c = Some (nodeName c)) (childNodes node) ->
  ((forall c, c ∈ childNodes node -> tagName c = Some "style" \/ childNodes c <> []) ->
   exists message,
     generateAbstractTree (Some node) debugName = Throw (AssertionError message))
  /\ (forall c viewBox,
        c ∈ childNodes node -> tagName c <> Some "style" -> childNodes c = [] ->
        find_viewBox node = Some viewBox ->
        List.length (viewBox_tail (value viewBox)) = 2%nat ->
        generateAbstractTree (Some node) debugName = normalizeNode node debugName).
Proof.
  intros Hsvg Helements. rewrite Forall_forall in Helements.
  rewrite (generateAbstractTree_svg node debugName Hsvg). split.
  - intros Hnone.
    destruct (find_viewBox node) as [vb|]; [|eauto]. simpl.
    destruct (Nat.eqb _ 2); [|eauto].
    destruct (existsb is_oneLevelPathNode (childNodes node)) eqn:Hex; [|eauto].
    apply existsb_elem_of in Hex as (c & Hc & Hleaf).
    rewrite (is_oneLevelPathNode_element c (Helements c Hc)) in Hleaf.
    apply is_drawable_leaf_by_tagName_spec in Hleaf as [Hname Hkids].
    destruct (Hnone c Hc) as [H|H]; contradiction.
  - intros c vb Hc Hname Hkids -> Hlen. simpl. rewrite Hlen. simpl.
    replace (existsb is_oneLevelPathNode (childNodes node)) with true; [reflexivity|].
    symmetry. apply existsb_elem_of. exists c. split; [exact Hc|].
    rewrite (is_oneLevelPathNode_element c (Helements c Hc)).
    apply is_drawable_leaf_by_tagName_spec. tauto.
Qed.

Lemma generateAbstractTree_leaf_check_witness :
  (exists message,
      generateAbstractTree (Some svg_group) (Some "close")
      = Throw (AssertionError message))
  /\ generateAbstractTree (Some svg_close) (Some "close")
     = normalizeNode svg_close (Some "close").
Proof.
  split.
  - destruct (generateAbstractTree_leaf_check svg_group (Some "close") eq_refl)
      as (Hnone & _).
    + repeat constructor.
    + apply Hnone. intros c Hc. right.
      apply list_elem_of_singleton in Hc. rewrite Hc. discriminate.
  - destruct (generateAbstractTree_leaf_check svg_close (Some "close") eq_refl)
      as (_ & Hleaf).
    + repeat constructor.
    + apply (Hleaf path_close (mkAttribute "viewBox" "0 0 1024 1024")).
      * apply list_elem_of_here.
      * discriminate.
      * reflexivity.
      * reflexivity.
      * reflexivity.
Defined.

(** C3.  A root that passes all validations (its tag is [svg], its
    [viewBox] has a tail of two tokens that parse as integers, one direct
    child at least passes the first-level path test, and every node of the
    subtree has a non-empty tag and attributes with different names) is
    turned into a tree whose tag is the root's tag name, whose children
    are the normalised child nodes, as many and in the same order, and
    whose attribute mapping has exactly one entry per source attribute,
    with the source's value. *)
Theorem generateAbstractTree_valid_root (root : Node) (debugName : option string)
    (viewBox : Attribute) (width height : string) :
  tagName root = Some "svg" ->
  find_viewBox root = Some viewBox ->
  viewBox_tail (value viewBox) = [width; height] ->
  is_NaN (parseInt width) = false ->
  is_NaN (parseInt height) = false ->
  (exists c, c ∈ childNodes root /\ is_oneLevelPathNode c = true) ->
  well_formed root = true ->
  exists t,
    generateAbstractTree (Some root) debugName = OK t
    /\ tagName root = Some (tag t)
    /\ List.length (children t) = List.length (childNodes root)
    /\ Forall2 (fun c c' => normalizeNode c debugName = OK c')
               (childNodes root) (children t)
    /\ map tagName (childNodes root) = map (fun c' => Some (tag c')) (children t)
    /\ one_entry_per_attribute (attrs root) (abstract_attrs t).
Proof.
  intros Hsvg Hvb Htail _ _ Hleaf Hwf.
  rewrite (generateAbstractTree_svg root debugName Hsvg), Hvb. simpl.
  rewrite Htail. simpl.
  apply existsb_elem_of in Hleaf. rewrite Hleaf.
  pose proof (normalizeNode_well_formed debugName root Hwf) as Hret.
  destruct (normalizeNode root debugName) as [t|e] eqn:Ht; [|discriminate].
  exists t. split; [reflexivity|].
  apply normalizeNode_OK in Ht as (_ & Htag & Hattrs & Hkids).
  split; [exact Htag|]. split; [symmetry; eapply Forall2_length; exact Hkids|].
  split; [exact Hkids|]. split.
  - clear -Hkids. induction Hkids as [|c c' cs cs' Hc _ IH]; [reflexivity|].
    simpl. rewrite IH. apply normalizeNode_OK in Hc as (_ & -> & _). reflexivity.
  - rewrite well_formed_unfold in Hwf.
    apply andb_true_iff in Hwf as [Hwf _]. apply andb_true_iff in Hwf as [_ Hnd].
    apply bool_decide_eq_true in Hnd.
    destruct (reduce_attrs_unique (attrs root) Hnd) as (m & Hm & Hone).
    rewrite Hm in Hattrs. injection Hattrs as <-. exact Hone.
Qed.

Lemma generateAbstractTree_valid_root_witness :
  exists t,
    generateAbstractTree (Some svg_close) (Some "close") = OK t
    /\ tagName svg_close = Some (tag t)
    /\ List.length (children t) = 1%nat
    /\ abstract_attrs t !! "viewBox" = Some "0 0 1024 1024".
Proof.
  destruct (generateAbstractTree_valid_root svg_close (Some "close")
              (mkAttribute "viewBox" "0 0 1024 1024") "1024" "1024")
    as (t & Ht & Htag & Hlen & _ & _ & Hattrs & _).
  - reflexivity.
  - reflexivity.
  - reflexivity.
  - reflexivity.
  - reflexivity.
  - exists path_close. split; [apply list_elem_of_singleton|]; reflexivity.
  - vm_compute. reflexivity.
  - exists t. split; [exact Ht|]. split; [exact Htag|]. split; [exact Hlen|].
    apply Hattrs. apply list_elem_of_singleton. reflexivity.
Defined.

(** C7.  [normalizeNode] throws the no-tag error, which carries the debug
    label, on a node whose tag name is absent or empty; a node without a
    tag name anywhere below makes the call throw as well, with that same
    error unless the descent is cut short by the redefinition error of a
    node that binds one attribute name to two values; and every node, at
    every depth, of a tree returned by [normalizeNode] or by
    [generateAbstractTree] has a non-empty tag. *)
Theorem normalizeNode_tag_invariant (debugName : option string) :
  (forall node,
      no_tag (tagName node) = true ->
      normalizeNode node debugName
      = Throw (TypeError (show_optional debugName
                          +:+ " Element should have no no-tag node")))
  /\ (forall node n,
        n ∈ subnodes node -> no_tag (tagName n) = true ->
        exists e,
          normalizeNode node debugName = Throw e
          /\ (e = no_tag_error debugName
              \/ exists n' a, n' ∈ subnodes node /\ ~ functional (attrs n')
                              /\ a ∈ attrs n' /\ e = redefine_error (name a)))
  /\ (forall node t,
        normalizeNode node debugName = OK t ->
        Forall (fun a => tag a <> "") (abstract_subnodes t))
  /\ (forall node t,
        generateAbstractTree node debugName = OK t ->
        Forall (fun a => tag a <> "") (abstract_subnodes t)).
Proof.
  split; [|split; [|split]].
  - intros node Htag. rewrite normalizeNode_unfold, Htag. reflexivity.
  - intros node n Hn Htag.
    pose proof (normalizeNode_no_tag_below debugName node n Hn Htag) as Hret.
    destruct (normalizeNode node debugName) as [t|e] eqn:He; [discriminate|].
    exists e. split; [reflexivity|]. apply (normalizeNode_Throw debugName node e He).
  - intros node t. apply normalizeNode_tags.
  - intros node t Ht.
    destruct (generateAbstractTree_returns node debugName) as (root & _ & Heq).
    + rewrite Ht. reflexivity.
    + rewrite Heq in Ht. apply (normalizeNode_tags debugName root t Ht).
Qed.

Lemma normalizeNode_tag_invariant_witness :
  normalizeNode (mkNode "#text" None [] []) (Some "close")
  = Throw (TypeError "close Element should have no no-tag node")
  /\ (exists e, normalizeNode svg_text_child (Some "close") = Throw e)
  /\ (exists t, normalizeNode svg_close (Some "close") = OK t
                /\ Forall (fun a => tag a <> "") (abstract_subnodes t))
  /\ (exists t, generateAbstractTree (Some svg_close) (Some "close") = OK t
                /\ Forall (fun a => tag a <> "") (abstract_subnodes t)).
Proof.
  destruct (normalizeNode_tag_invariant (Some "close")) as (H1 & H2 & H3 & H4).
  split; [|split; [|split]].
  - apply (H1 (mkNode "#text" None [] [])). reflexivity.
  - destruct (H2 svg_text_child (mkNode "#text" None [] [])) as (e & He & _).
    + vm_compute. do 2 apply list_elem_of_further. apply list_elem_of_here.
    + reflexivity.
    + exists e. exact He.
  - destruct (normalizeNode svg_close (Some "close")) as [t|e] eqn:Ht.
    + exists t. split; [reflexivity|]. apply (H3 svg_close t Ht).
    + vm_compute in Ht. discriminate.
  - destruct (generateAbstractTree (Some svg_close) (Some "close")) as [t|e] eqn:Ht.
    + exists t. split; [reflexivity|]. apply (H4 (Some svg_close) t Ht).
    + vm_compute in Ht. discriminate.
Defined.

(** C9, as amended.  On a node that has a tag name: when two entries of
    the attribute list have the same name and different values,
    [normalizeNode] throws the redefinition error of an attribute of the
    node instead of letting the last one win; when the entries that share
    a name also share their value, building the attribute mapping does not
    throw and repeated entries yield one entry; when the names are
    pairwise different, building the attribute mapping does not throw, and
    the mapping of a returned tree has exactly one entry per attribute. *)
Theorem normalizeNode_attribute_names (node : Node) (debugName : option string) :
  no_tag (tagName node) = false ->
  (forall a b,
      a ∈ attrs node -> b ∈ attrs node ->
      name a = name b -> value a <> value b ->
      exists c, c ∈ attrs node
                /\ normalizeNode node debugName = Throw (redefine_error (name c)))
  /\ (functional (attrs node) ->
      exists m, reduce_attrs (attrs node) = OK m
                /\ forall k v, m !! k = Some v <-> mkAttribute k v ∈ attrs node)
  /\ (unique_attrs node ->
      (exists m, reduce_attrs (attrs node) = OK m
                 /\ one_entry_per_attribute (attrs node) m)
      /\ forall t, normalizeNode node debugName = OK t ->
                   one_entry_per_attribute (attrs node) (abstract_attrs t)).
Proof.
  intros Htag. split; [|split].
  - intros a b Ha Hb Hname Hvalue.
    rewrite normalizeNode_unfold, Htag.
    destruct (reduce_attrs (attrs node)) as [m|e] eqn:Hm.
    + exfalso. apply Hvalue.
      assert (functional (attrs node)) as Hfun
        by (apply reduce_attrs_returns; rewrite Hm; reflexivity).
      apply Hfun; assumption.
    + destruct (reduce_attrs_Throw _ _ Hm) as (c & Hc & ->).
      exists c. split; [exact Hc | reflexivity].
  - intros Hfun. apply reduce_attrs_returns in Hfun.
    pose proof (reduce_spec (attrs node) ∅) as Hspec. unfold reduce_attrs in *.
    destruct (foldl reduce_step (OK ∅) (attrs node)) as [m|e]; [|discriminate].
    exists m. split; [reflexivity|]. destruct Hspec as (_ & _ & Hlookup).
    intros k v. rewrite Hlookup, lookup_empty. split; [|tauto].
    intros [Hempty|Hin]; [discriminate | exact Hin].
  - intros Hnd. destruct (reduce_attrs_unique (attrs node) Hnd) as (m & Hm & Hone).
    split; [exists m; tauto|].
    intros t Ht. apply normalizeNode_OK in Ht as (_ & _ & Hattrs & _).
    rewrite Hm in Hattrs. injection Hattrs as <-. exact Hone.
Qed.

Lemma normalizeNode_attribute_names_witness :
  normalizeNode g_conflict (Some "close")
  = Throw (TypeError "Cannot redefine property: fill")
  /\ exists m, reduce_attrs (attrs path_close) = OK m
               /\ one_entry_per_attribute (attrs path_close) m.
Proof.
  destruct (normalizeNode_attribute_names g_conflict (Some "close") eq_refl)
    as (Hconflict & _).
  destruct (normalizeNode_attribute_names path_close (Some "close") eq_refl)
    as (_ & _ & Hunique).
  split.
  - destruct (Hconflict (mkAttribute "fill" "red") (mkAttribute "fill" "blue"))
      as (c & Hc & Hthrow).
    + apply list_elem_of_here.
    + apply list_elem_of_further, list_elem_of_here.
    + reflexivity.
    + discriminate.
    + rewrite Hthrow. f_equal.
      apply elem_of_cons in Hc as [->|Hc]; [reflexivity|].
      apply list_elem_of_singleton in Hc as ->. reflexivity.
  - apply Hunique. unfold unique_attrs. simpl.
    apply NoDup_singleton.
Defined.

(** C9, as stated, fails: the node below lists the attribute [fill] twice
    with the same value, and [normalizeNode] returns a tree with the one
    entry. *)
Lemma normalizeNode_repeated_attribute :
  attrs g_repeated = [mkAttribute "fill" "red"; mkAttribute "fill" "red"]
  /\ normalizeNode g_repeated (Some "close")
     = OK (mkAbstractNode "g" {[ "fill" := "red" ]} []).
Proof. vm_compute. split; reflexivity. Qed.

(** C10.  Whenever [generateAbstractTree] returns, its input is a root
    node and its result is what [normalizeNode] returns for that root and
    the same debug label: the checks that come first do not contribute to
    the tree. *)
Theorem generateAbstractTree_is_normalizeNode
    (node : option Node) (debugName : option string) (t : AbstractNode) :
  generateAbstractTree node debugName = OK t ->
  exists root, node = Some root /\ normalizeNode root debugName = OK t.
Proof.
  intros Ht. destruct (generateAbstractTree_returns node debugName) as (root & -> & Heq).
  - rewrite Ht. reflexivity.
  - exists root. split; [reflexivity|]. rewrite <- Heq. exact Ht.
Qed.

Lemma generateAbstractTree_is_normalizeNode_witness :
  exists root,
    Some svg_close = Some root
    /\ normalizeNode root (Some "close")
       = OK (mkAbstractNode "svg" {[ "viewBox" := "0 0 1024 1024" ]}
               [mkAbstractNode "path" {[ "d" := "M563.8 512l262.5-312.9" ]} []]).
Proof.
  apply (generateAbstractTree_is_normalizeNode (Some svg_close) (Some "close")).
  vm_compute. reflexivity.
Defined.

(** ** The claims about the naming functions *)

Lemma prefix_append (s t : string) : String.prefix s (s +:+ t) = true.
Proof.
  induction s as [|c s IH]; [destruct t; reflexivity|].
  change (String.prefix (String c s) (String c (s +:+ t)) = true). simpl.
  destruct (ascii_dec c c); [exact IH | contradiction].
Qed.

Lemma includes_here (s t : string) : includes s (s +:+ t) = true.
Proof.
  destruct s as [|c s]; [destruct t; reflexivity|].
  change (String.prefix (String c s) (String c s +:+ t)
          || includes (String c s) (s +:+ t) = true).
  rewrite prefix_append. reflexivity.
Qed.

Lemma includes_append (s a t : string) :
  includes s t = true -> includes s (a +:+ t) = true.
Proof.
  intros H. induction a as [|c a IH]; [exact H|].
  change (String.prefix s (String c (a +:+ t)) || includes s (a +:+ t) = true).
  rewrite IH. apply orb_true_r.
Qed.

Lemma append_empty_r (s : string) : s +:+ "" = s.
Proof.
  induction s as [|c s IH]; [reflexivity|].
  change (String c (s +:+ "") = String c s). rewrite IH. reflexivity.
Qed.

Lemma includes_end (s a : string) : includes s (a +:+ s) = true.
Proof.
  apply includes_append. pose proof (includes_here s "") as H.
  rewrite append_empty_r in H. exact H.
Qed.

Lemma append_inv_head (s a b : string) : s +:+ a = s +:+ b -> a = b.
Proof.
  induction s as [|c s IH]; [trivial|].
  change (String c (s +:+ a) = String c (s +:+ b) -> a = b). intros [= H]. apply IH, H.
Qed.

Lemma is_theme_spec (theme : ThemeType) :
  is_theme theme = true <-> theme = "fill" \/ theme = "outline" \/ theme = "twotone".
Proof.
  unfold is_theme. rewrite !orb_true_iff, !String.eqb_eq. tauto.
Qed.

(** C5.  [getIdentifier] appends [Fill], [Outline] or [TwoTone] and
    [withSuffix] appends [-fill], [-o] (not [-outline]) or [-twotone] for
    the themes [fill], [outline] and [twotone]; for any other theme each
    throws a [TypeError] whose message names the theme and the identifier
    or name it was given. *)
Theorem theme_suffixes (identifier name : string) (theme : ThemeType) :
  getIdentifier identifier "fill" = OK (identifier +:+ "Fill")
  /\ getIdentifier identifier "outline" = OK (identifier +:+ "Outline")
  /\ getIdentifier identifier "twotone" = OK (identifier +:+ "TwoTone")
  /\ withSuffix name "fill" = OK (name +:+ "-fill")
  /\ withSuffix name "outline" = OK (name +:+ "-o")
  /\ withSuffix name "outline" <> OK (name +:+ "-outline")
  /\ withSuffix name "twotone" = OK (name +:+ "-twotone")
  /\ (is_theme theme = false ->
      exists message_i message_n,
        getIdentifier identifier theme = Throw (TypeError message_i)
        /\ message_i = "Unknown theme type: " +:+ theme
                       +:+ ", identifier: " +:+ identifier
        /\ includes theme message_i = true
        /\ includes identifier message_i = true
        /\ withSuffix name theme = Throw (TypeError message_n)
        /\ message_n = "Unknown theme type: " +:+ theme +:+ ", name: " +:+ name
        /\ includes theme message_n = true
        /\ includes name message_n = true).
Proof.
  repeat (split; [reflexivity|]).
  split; [|split; [reflexivity|]].
  - intros [= H]. apply append_inv_head in H. discriminate.
  - intros Htheme. unfold is_theme in Htheme.
    apply orb_false_iff in Htheme as [Htheme Htwotone].
    apply orb_false_iff in Htheme as [Hfill Houtline].
    unfold getIdentifier, withSuffix. rewrite Hfill, Houtline, Htwotone.
    eexists _, _. split; [reflexivity|]. split; [reflexivity|].
    split; [apply includes_append, includes_here|].
    split; [do 2 apply includes_append; apply includes_end|].
    split; [reflexivity|]. split; [reflexivity|].
    split; [apply includes_append, includes_here|].
    do 2 apply includes_append. apply includes_end.
Qed.

Lemma theme_suffixes_witness :
  getIdentifier "Close" "bogus"
  = Throw (TypeError "Unknown theme type: bogus, identifier: Close")
  /\ withSuffix "close" "bogus"
     = Throw (TypeError "Unknown theme type: bogus, name: close").
Proof.
  destruct (theme_suffixes "Close" "close" "bogus")
    as (_ & _ & _ & _ & _ & _ & _ & Hbogus).
  destruct (Hbogus eq_refl) as (mi & mn & Hi & -> & _ & _ & Hn & -> & _).
  split; [exact Hi | exact Hn].
Defined.

(** ** The claims about the rollback lookup *)

Section Rollback.

Context `{Path} `{Fs} (env : Environment) (kebabCaseName : string).

Lemma getRollbackTheme_cons (theme : ThemeType) (rest : list ThemeType) :
  getRollbackTheme env kebabCaseName (theme :: rest) =
  if isAccessable (theme_url env kebabCaseName theme) then OK theme
  else getRollbackTheme env kebabCaseName rest.
Proof.
  unfold getRollbackTheme, isAccessable. simpl.
  destruct (fs_accessSync (theme_url env kebabCaseName theme)); reflexivity.
Qed.

Lemma getRollbackTheme_find (rollbackList : list ThemeType) :
  getRollbackTheme env kebabCaseName rollbackList =
  match List.find (fun theme => isAccessable (theme_url env kebabCaseName theme))
                  rollbackList with
  | Some theme => OK theme
  | None => Throw (Error ("There is no SVG of the icon: " +:+ kebabCaseName))
  end.
Proof.
  induction rollbackList as [|theme rest IH]; [reflexivity|].
  rewrite getRollbackTheme_cons. simpl.
  destruct (isAccessable (theme_url env kebabCaseName theme)); [reflexivity | exact IH].
Qed.

(** C2, as amended.  [getRollbackTheme] probes the theme-specific path of
    each candidate in list order and returns the first theme whose probe
    succeeds, whatever comes after it in the list; when no probe succeeds
    it fails with an error whose message names the icon (the candidate
    themes are not part of the message). *)
Theorem getRollbackTheme_first_match (rollbackList : list ThemeType) :
  (forall before theme after,
      rollbackList = before ++ theme :: after ->
      Forall (fun t => isAccessable (theme_url env kebabCaseName t) = false) before ->
      isAccessable (theme_url env kebabCaseName theme) = true ->
      getRollbackTheme env kebabCaseName rollbackList = OK theme)
  /\ (Forall (fun t => isAccessable (theme_url env kebabCaseName t) = false)
             rollbackList ->
      exists message,
        getRollbackTheme env kebabCaseName rollbackList = Throw (Error message)
        /\ message = "There is no SVG of the icon: " +:+ kebabCaseName
        /\ includes kebabCaseName message = true).
Proof.
  split.
  - intros before theme after -> Hbefore Htheme.
    induction Hbefore as [|t before Ht _ IH]; simpl; rewrite getRollbackTheme_cons.
    + rewrite Htheme. reflexivity.
    + rewrite Ht. exact IH.
  - intros Hnone. eexists. split; [|split; [reflexivity | apply includes_end]].
    induction Hnone as [|t l Ht _ IH]; [reflexivity|].
    rewrite getRollbackTheme_cons, Ht. exact IH.
Qed.

End Rollback.

Lemma getRollbackTheme_first_match_witness :
  @getRollbackTheme join_path fs_outline_only env_svg "close"
    ["twotone"; "outline"; "fill"] = OK "outline"
  /\ exists message,
       @getRollbackTheme join_path fs_empty env_svg "close"
         ["twotone"; "outline"; "fill"] = Throw (Error message).
Proof.
  split.
  - apply (@getRollbackTheme_first_match join_path fs_outline_only env_svg "close"
             ["twotone"; "outline"; "fill"])
      with (before := ["twotone"]) (after := ["fill"]).
    + reflexivity.
    + constructor; [reflexivity | constructor].
    + reflexivity.
  - destruct (@getRollbackTheme_first_match join_path fs_empty env_svg "close"
                ["twotone"; "outline"; "fill"]) as (_ & Hnone).
    destruct Hnone as (message & Hthrow & _).
    + repeat constructor.
    + exists message. exact Hthrow.
Defined.

(** C2, as stated, fails: with no source file for any candidate, the
    error names the icon and none of the three themes that were tried. *)
Lemma getRollbackTheme_error_omits_themes :
  @getRollbackTheme join_path fs_empty env_svg "close" ["twotone"; "outline"; "fill"]
  = Throw (Error "There is no SVG of the icon: close")
  /\ includes "close" "There is no SVG of the icon: close" = true
  /\ Forall (fun theme => includes theme "There is no SVG of the icon: close" = false)
            ["twotone"; "outline"; "fill"].
Proof. vm_compute. repeat constructor. Qed.

Lemma name_entry_Throw `{Lodash} (theme : ThemeType) (isKebabCase : bool)
    (basicName : string) :
  is_theme theme = false -> returns (name_entry theme isKebabCase basicName) = false.
Proof.
  intros Htheme. unfold is_theme in Htheme.
  apply orb_false_iff in Htheme as [Htheme Htwotone].
  apply orb_false_iff in Htheme as [Hfill Houtline].
  unfold name_entry, withSuffix, getIdentifier.
  rewrite Hfill, Houtline, Htwotone. destruct isKebabCase; reflexivity.
Qed.

(** C8.  Two file systems whose probes return on the same paths, however
    the failing probes fail, give [getRollbackTheme] and [isAccessable]
    the same outcome.  No other exception is caught: the one of a child
    passes through [normalizeNode], the one of [normalizeNode] through
    [generateAbstractTree], and the one of the naming functions through
    [theseShouldBeWithTheme]. *)
Theorem probe_failure_is_absence `{Path} `{Lodash} (fs1 fs2 : Fs) :
  (forall url, returns (@fs_accessSync fs1 url) = returns (@fs_accessSync fs2 url)) ->
  (forall env kebabCaseName rollbackList,
      @getRollbackTheme _ fs1 env kebabCaseName rollbackList
      = @getRollbackTheme _ fs2 env kebabCaseName rollbackList)
  /\ (forall url, @isAccessable fs1 url = @isAccessable fs2 url)
  /\ (forall node child debugName,
        child ∈ childNodes node ->
        returns (normalizeNode child debugName) = false ->
        returns (normalizeNode node debugName) = false)
  /\ (forall root debugName,
        returns (normalizeNode root debugName) = false ->
        returns (generateAbstractTree (Some root) debugName) = false)
  /\ (forall basicNames theme isKebabCase,
        basicNames <> [] -> is_theme theme = false ->
        returns (theseShouldBeWithTheme basicNames theme isKebabCase) = false).
Proof.
  intros Hprobe.
  assert (forall url, @isAccessable fs1 url = @isAccessable fs2 url) as Hacc.
  { intros url. unfold isAccessable. specialize (Hprobe url).
    destruct (@fs_accessSync fs1 url), (@fs_accessSync fs2 url);
      simpl in Hprobe; congruence. }
  split; [|split; [exact Hacc|split; [|split]]].
  - intros env kebabCaseName rollbackList.
    induction rollbackList as [|theme rest IH]; [reflexivity|].
    rewrite !getRollbackTheme_cons, Hacc, IH. reflexivity.
  - intros node child debugName Hchild Hthrow.
    rewrite normalizeNode_unfold.
    destruct (no_tag (tagName node)); [reflexivity|].
    destruct (reduce_attrs (attrs node)); [|reflexivity]. simpl.
    pose proof (mapE_fails (fun c => normalizeNode c debugName)
                  (childNodes node) child Hchild Hthrow) as Hmap.
    destruct (mapE _ (childNodes node)); [discriminate | reflexivity].
  - intros root debugName Hthrow.
    destruct (returns (generateAbstractTree (Some root) debugName)) eqn:Hret;
      [|reflexivity].
    destruct (generateAbstractTree_returns (Some root) debugName Hret)
      as (root' & [= <-] & Heq).
    rewrite Heq in Hret. congruence.
  - intros basicNames theme isKebabCase Hnames Htheme.
    destruct basicNames as [|basicName rest]; [contradiction|].
    unfold theseShouldBeWithTheme. simpl.
    pose proof (name_entry_Throw theme isKebabCase basicName Htheme) as Hentry.
    destruct (name_entry theme isKebabCase basicName); [discriminate | reflexivity].
Qed.

Lemma probe_failure_is_absence_witness :
  @getRollbackTheme join_path fs_outline_only env_svg "close"
    ["twotone"; "outline"; "fill"]
  = @getRollbackTheme join_path fs_outline_only_denied env_svg "close"
      ["twotone"; "outline"; "fill"]
  /\ @isAccessable fs_outline_only "/svg/fill/close.svg"
     = @isAccessable fs_outline_only_denied "/svg/fill/close.svg".
Proof.
  destruct (@probe_failure_is_absence join_path lodash_identity
              fs_outline_only fs_outline_only_denied) as (Hrollback & Hacc & _).
  - intros url. simpl. destruct (String.eqb url "/svg/outline/close.svg"); reflexivity.
  - split; [apply Hrollback | apply Hacc].
Defined.

(** ** The claims about the name table *)

Section NameTable.

Context `{Lodash}.

Lemma derived_name_theme (theme : ThemeType) (isKebabCase : bool)
    (basicName : string) :
  is_theme theme = true ->
  exists value, derived_name theme isKebabCase basicName = OK value.
Proof.
  intros Htheme. apply is_theme_spec in Htheme as [-> | [-> | ->]];
    destruct isKebabCase; eexists; reflexivity.
Qed.

Lemma name_entry_OK (theme : ThemeType) (isKebabCase : bool)
    (basicName : string) (entry : string * string) :
  name_entry theme isKebabCase basicName = OK entry <->
  entry.1 = basicName /\ derived_name theme isKebabCase basicName = OK entry.2.
Proof.
  unfold name_entry, derived_name. destruct entry as [key value]. simpl.
  destruct (if isKebabCase then _ else _) as [v|e]; simpl.
  - split.
    + intros Heq. injection Heq as <- <-. tauto.
    + intros [Hkey Hvalue]. injection Hvalue as ->. rewrite Hkey. reflexivity.
  - split; [discriminate|]. intros [_ Hvalue]. discriminate.
Qed.

Lemma set_lookup (acc : gmap string string) (key value k : string) :
  Js.set acc key value !! k =
  if decide (key = k /\ key <> "__proto__") then Some value else acc !! k.
Proof.
  unfold Js.set. destruct (decide (key = "__proto__")) as [Hproto|Hproto].
  - rewrite decide_False by tauto. reflexivity.
  - destruct (decide (key = k)) as [<-|Hk].
    + rewrite decide_True by tauto. apply lookup_insert_eq.
    + rewrite decide_False by tauto. apply lookup_insert_ne, Hk.
Qed.

(** What the reducer leaves in the table: the derived name of every base
    name of the list other than ["__proto__"], and the earlier content for
    the other keys. *)
Lemma assign_entries_lookup (theme : ThemeType) (isKebabCase : bool)
    (basicNames : list string) (entries : list (string * string)) :
  Forall2 (fun basicName entry => name_entry theme isKebabCase basicName = OK entry)
          basicNames entries ->
  forall (acc : gmap string string) (k v : string),
    foldl assign_entry acc entries !! k = Some v <->
    (k ∈ basicNames /\ k <> "__proto__"
     /\ derived_name theme isKebabCase k = OK v)
    \/ (~ (k ∈ basicNames /\ k <> "__proto__") /\ acc !! k = Some v).
Proof.
  induction 1 as [|basicName entry basicNames entries Hentry _ IH]; intros acc k v.
  - simpl. split; [intros Hk; right; split; [|exact Hk] | intros [[Hk _]|[_ Hk]]].
    + intros [Hk' _]. inversion Hk'.
    + inversion Hk.
    + exact Hk.
  - apply name_entry_OK in Hentry as [Hkey Hvalue].
    destruct entry as [key value]. simpl in Hkey, Hvalue. subst key.
    simpl. rewrite IH. unfold assign_entry. simpl. rewrite set_lookup, elem_of_cons.
    destruct (decide (basicName = k /\ basicName <> "__proto__")) as [[<- Hproto]|Hk].
    + split.
      * intros [(Hin & _ & Hv)|[Hnot [= <-]]]; left; auto.
      * intros [(_ & _ & Hv)|[Hnot _]]; [|exfalso; apply Hnot; auto].
        destruct (decide (basicName ∈ basicNames)) as [Hin|Hin]; [left; auto|].
        right. split; [intros [Hin' _]; auto | congruence].
    + split.
      * intros [(Hin & Hproto & Hv)|[Hnot Hacc]]; [left; auto|].
        right. split; [|exact Hacc].
        intros [[Heq|Hin] Hproto]; [apply Hk; subst k; auto | apply Hnot; auto].
      * intros [([Heq|Hin] & Hproto & Hv)|[Hnot Hacc]].
        -- exfalso. apply Hk. subst k. auto.
        -- left. auto.
        -- right. split; [|exact Hacc]. intros [Hin Hproto]. apply Hnot. auto.
Qed.

(** For a theme of the enumeration the table is built without an
    exception, and it holds exactly the derived names of the base names
    other than ["__proto__"], one entry for each distinct one. *)
Lemma theseShouldBeWithTheme_table (basicNames : list string)
    (theme : ThemeType) (isKebabCase : bool) :
  is_theme theme = true ->
  exists table,
    theseShouldBeWithTheme basicNames theme isKebabCase = OK table
    /\ (forall k v, table !! k = Some v <->
                    k ∈ basicNames /\ k <> "__proto__"
                    /\ derived_name theme isKebabCase k = OK v)
    /\ dom table = list_to_set basicNames ∖ {["__proto__"]}.
Proof.
  intros Htheme. unfold theseShouldBeWithTheme.
  destruct (mapE_total (name_entry theme isKebabCase) basicNames) as [entries Hentries].
  - apply Forall_forall. intros basicName _.
    destruct (derived_name_theme theme isKebabCase basicName Htheme) as [value Hvalue].
    unfold name_entry. unfold derived_name in Hvalue. rewrite Hvalue. reflexivity.
  - rewrite Hentries. simpl. eexists. split; [reflexivity|].
    apply mapE_OK in Hentries.
    pose proof (assign_entries_lookup theme isKebabCase basicNames entries Hentries ∅)
      as Hlookup.
    assert (forall k v, foldl assign_entry ∅ entries !! k = Some v <->
                        k ∈ basicNames /\ k <> "__proto__"
                        /\ derived_name theme isKebabCase k = OK v) as Htable.
    { intros k v. rewrite Hlookup, lookup_empty. split; [|tauto].
      intros [Hk|[_ [=]]]. exact Hk. }
    split; [exact Htable|].
    apply set_eq. intros k.
    rewrite elem_of_dom, elem_of_difference, elem_of_list_to_set, elem_of_singleton.
    split.
    + intros [v Hv]. apply Htable in Hv. tauto.
    + intros [Hin Hproto].
      destruct (derived_name_theme theme isKebabCase k Htheme) as [v Hv].
      exists v. apply Htable. tauto.
Qed.

(** C6 at the base name ["__proto__"]: the kebab name is computed, and
    the table that comes back has no entry at all. *)
Theorem theseShouldBeWithTheme_proto :
  withSuffix "__proto__" "fill" = OK "__proto__-fill"
  /\ theseShouldBeWithTheme ["__proto__"] "fill" true = OK ∅
  /\ theseShouldBeWithTheme ["close"; "__proto__"] "fill" true
     = OK {[ "close" := "close-fill" ]}.
Proof. vm_compute. repeat split. Qed.

End NameTable.

(** * Further properties of the tree builder *)

Lemma reduce_attrs_lookup (l : list Attribute) (m : gmap string string) :
  reduce_attrs l = OK m ->
  forall k v, m !! k = Some v <-> mkAttribute k v ∈ l.
Proof.
  intros Hm k v. pose proof (reduce_spec l ∅) as Hspec. unfold reduce_attrs in Hm.
  rewrite Hm in Hspec. destruct Hspec as (_ & _ & Hlookup).
  rewrite Hlookup, lookup_empty. split; [|tauto].
  intros [Hempty|Hin]; [discriminate | exact Hin].
Qed.

Lemma Forall_flat_map_iff {A B : Type} (P : B -> Prop) (f : A -> list B) (l : list A) :
  Forall P (List.flat_map f l) <-> Forall (fun x => Forall P (f x)) l.
Proof.
  induction l as [|x l IH]; simpl.
  - split; constructor.
  - rewrite Forall_app, Forall_cons, IH. reflexivity.
Qed.

(** [normalizeNode] returns exactly on the trees all of whose nodes can
    be normalised. *)
Lemma normalizeNode_returns_iff (debugName : option string) (node : Node) :
  returns (normalizeNode node debugName) = true <->
  Forall normalizable (subnodes node).
Proof.
  induction node as [nn tn at_ cs IH] using Node_ind.
  rewrite subnodes_unfold, normalizeNode_unfold, Forall_cons, Forall_flat_map_iff.
  unfold normalizable at 1. simpl.
  destruct (no_tag tn); [split; [discriminate | intros [[[=] _] _]]|].
  rewrite <- reduce_attrs_returns.
  destruct (reduce_attrs at_) as [m|e]; simpl;
    [|split; [discriminate | intros [[_ [=]] _]]].
  split.
  - intros Hret. split; [tauto|].
    destruct (mapE _ cs) as [ys|e] eqn:Hcs; [|discriminate].
    apply mapE_OK in Hcs. clear Hret.
    induction Hcs as [|c c' cs cs' Hc _ IHcs]; [constructor|].
    apply Forall_cons in IH as [IHc IH]. constructor; [|apply IHcs, IH].
    apply IHc. rewrite Hc. reflexivity.
  - intros [_ Hcs].
    destruct (mapE_total (fun child => normalizeNode child debugName) cs) as [ys ->];
      [|reflexivity].
    clear -IH Hcs. induction Hcs as [|c cs Hc _ IHcs]; [constructor|].
    apply Forall_cons in IH as [IHc IH]. constructor; [|apply IHcs, IH].
    apply IHc, Hc.
Qed.

(** The debug label has no part in a tree that is returned. *)
Lemma normalizeNode_label (d d' : option string) (node : Node) (t : AbstractNode) :
  normalizeNode node d = OK t -> normalizeNode node d' = OK t.
Proof.
  revert t. induction node as [nn tn at_ cs IH] using Node_ind. intros t Ht.
  apply normalizeNode_OK in Ht as (Htag & Ht & Hattrs & Hcs).
  apply normalizeNode_OK. split; [exact Htag|]. split; [exact Ht|].
  split; [exact Hattrs|]. simpl in *. clear -IH Hcs.
  induction Hcs as [|c c' cs cs' Hc _ IHcs]; [constructor|].
  apply Forall_cons in IH as [IHc IH]. constructor; [apply IHc, Hc | apply IHcs, IH].
Qed.

Lemma generateAbstractTree_label (d d' : option string) (node : option Node)
    (t : AbstractNode) :
  generateAbstractTree node d = OK t -> generateAbstractTree node d' = OK t.
Proof.
  destruct node as [root|]; [|discriminate].
  destruct (decide (tagName root = Some "svg")) as [Hsvg|Hsvg].
  - rewrite !generateAbstractTree_svg by exact Hsvg.
    destruct (find_viewBox root) as [vb|]; [|discriminate]. simpl.
    destruct (Nat.eqb _ 2); [|discriminate].
    destruct (existsb _ _); [|discriminate]. apply normalizeNode_label.
  - rewrite generateAbstractTree_not_svg by exact Hsvg. discriminate.
Qed.

(** X1.  [normalizeNode] returns a tree exactly when every node of the
    input, at every depth, has a non-empty tag name and no attribute name
    bound to two different values; on any other input it throws the
    no-tag error or the redefinition error of an attribute of a node
    that binds a name twice. *)
Theorem normalizeNode_acceptance (debugName : option string) (node : Node) :
  (Forall normalizable (subnodes node) ->
   exists t, normalizeNode node debugName = OK t)
  /\ (~ Forall normalizable (subnodes node) ->
      exists e,
        normalizeNode node debugName = Throw e
        /\ (e = no_tag_error debugName
            \/ exists n a, n ∈ subnodes node /\ ~ functional (attrs n)
                           /\ a ∈ attrs n /\ e = redefine_error (name a))).
Proof.
  pose proof (normalizeNode_returns_iff debugName node) as Hiff.
  destruct (normalizeNode node debugName) as [t|e] eqn:Hrun; simpl in Hiff.
  - split; [eauto|]. intros Hnot. exfalso. apply Hnot, Hiff. reflexivity.
  - split.
    + intros Hall. apply Hiff in Hall. discriminate.
    + intros _. exists e. split; [reflexivity|].
      apply (normalizeNode_Throw debugName node e Hrun).
Qed.

Lemma normalizeNode_acceptance_witness :
  exists t, normalizeNode svg_nested (Some "nested") = OK t.
Proof.
  destruct (normalizeNode_acceptance (Some "nested") svg_nested) as (Haccept & _).
  apply Haccept.
  apply (proj1 (normalizeNode_returns_iff (Some "nested") svg_nested)).
  vm_compute. reflexivity.
Defined.

(** X2.  [generateAbstractTree] returns a tree exactly when it is given a
    root whose tag is [svg], whose first [viewBox] attribute has a tail of
    two tokens, with a direct child that is not named [style] and has no
    children, and all of whose nodes can be normalised; every other call
    ends in an [AssertionError] or in one of the two errors of
    [normalizeNode]. *)
Theorem generateAbstractTree_acceptance (node : option Node)
    (debugName : option string) :
  (returns (generateAbstractTree node debugName) = true <->
   exists root viewBox,
     node = Some root
     /\ tagName root = Some "svg"
     /\ find_viewBox root = Some viewBox
     /\ List.length (viewBox_tail (value viewBox)) = 2%nat
     /\ (exists c, c ∈ childNodes root /\ nodeName c <> "style" /\ childNodes c = [])
     /\ Forall normalizable (subnodes root))
  /\ (forall e,
        generateAbstractTree node debugName = Throw e ->
        (exists message, e = AssertionError message)
        \/ e = no_tag_error debugName
        \/ exists name, e = redefine_error name).
Proof.
  destruct node as [root|]; cycle 1.
  { split; [split; [discriminate | intros (r & vb & [=] & _)]|].
    intros e [= <-]. eauto. }
  destruct (decide (tagName root = Some "svg")) as [Hsvg|Hsvg]; cycle 1.
  { rewrite generateAbstractTree_not_svg by exact Hsvg. split.
    - split; [discriminate|]. intros (r & vb & [= <-] & Hr & _). contradiction.
    - intros e [= <-]. eauto. }
  rewrite generateAbstractTree_svg by exact Hsvg.
  destruct (find_viewBox root) as [vb|] eqn:Hvb; cycle 1.
  { split.
    - split; [discriminate|]. intros (r & vb & [= <-] & _ & Hr & _). congruence.
    - intros e [= <-]. eauto. }
  simpl. destruct (Nat.eqb _ 2) eqn:Hlen; cycle 1.
  { apply Nat.eqb_neq in Hlen. split.
    - split; [discriminate|]. intros (r & vb' & [= <-] & _ & Hr & Hlen' & _). congruence.
    - intros e [= <-]. eauto. }
  apply Nat.eqb_eq in Hlen.
  destruct (existsb is_oneLevelPathNode (childNodes root)) eqn:Hleaf; cycle 1.
  { split.
    - split; [discriminate|].
      intros (r & vb' & [= <-] & _ & _ & _ & (c & Hc & Hname & Hkids) & _).
      assert (existsb is_oneLevelPathNode (childNodes root) = true) as Hex.
      { apply existsb_elem_of. exists c. split; [exact Hc|].
        apply is_oneLevelPathNode_spec. tauto. }
      congruence.
    - intros e [= <-]. eauto. }
  apply existsb_elem_of in Hleaf as (c & Hc & Hleaf).
  apply is_oneLevelPathNode_spec in Hleaf.
  split.
  - rewrite normalizeNode_returns_iff. split.
    + intros Hall. exists root, vb. eauto 10.
    + intros (r & vb' & [= <-] & _ & _ & _ & _ & Hall). exact Hall.
  - intros e He. right.
    destruct (normalizeNode_Throw debugName root e He)
      as [->|(n & a & _ & _ & _ & ->)]; eauto.
Qed.

Lemma generateAbstractTree_acceptance_witness :
  returns (generateAbstractTree (Some svg_nested) (Some "nested")) = true
  /\ exists message,
       generateAbstractTree (Some svg_group) (Some "group")
       = Throw (AssertionError message).
Proof.
  split.
  - apply (proj1 (generateAbstractTree_acceptance (Some svg_nested) (Some "nested"))).
    exists svg_nested, (mkAttribute "viewBox" "0 0 1024 1024").
    split; [reflexivity|]. split; [reflexivity|]. split; [reflexivity|].
    split; [reflexivity|]. split.
    + exists path_close. split; [|split; [discriminate | reflexivity]].
      apply list_elem_of_further, list_elem_of_here.
    + apply (proj1 (normalizeNode_returns_iff (Some "nested") svg_nested)).
      vm_compute. reflexivity.
  - destruct (proj2 (generateAbstractTree_acceptance (Some svg_group) (Some "group"))
                (AssertionError (Some "group")))
      as [Hassert|[Htag|[name Hname]]].
    + vm_compute. reflexivity.
    + destruct Hassert as [message Hmessage]. exists message.
      rewrite <- Hmessage. vm_compute. reflexivity.
    + discriminate.
    + discriminate.
Defined.

(** X3.  The debug label only shows in error messages: when
    [normalizeNode] or [generateAbstractTree] returns a tree under one
    label, it returns the same tree under any other, and a call that
    throws under one label throws under every label. *)
Theorem debugName_only_in_errors (d d' : option string) :
  (forall node t, normalizeNode node d = OK t -> normalizeNode node d' = OK t)
  /\ (forall node t,
        generateAbstractTree node d = OK t -> generateAbstractTree node d' = OK t)
  /\ (forall node,
        returns (normalizeNode node d) = returns (normalizeNode node d'))
  /\ (forall node,
        returns (generateAbstractTree node d)
        = returns (generateAbstractTree node d')).
Proof.
  split; [|split; [|split]].
  - intros node t. apply normalizeNode_label.
  - intros node t. apply generateAbstractTree_label.
  - intros node.
    destruct (normalizeNode node d) as [t|e] eqn:Hd.
    + rewrite (normalizeNode_label d d' node t Hd). reflexivity.
    + destruct (normalizeNode node d') as [t'|e'] eqn:Hd'; [|reflexivity].
      rewrite (normalizeNode_label d' d node t' Hd') in Hd. discriminate.
  - intros node.
    destruct (generateAbstractTree node d) as [t|e] eqn:Hd.
    + rewrite (generateAbstractTree_label d d' node t Hd). reflexivity.
    + destruct (generateAbstractTree node d') as [t'|e'] eqn:Hd'; [|reflexivity].
      rewrite (generateAbstractTree_label d' d node t' Hd') in Hd. discriminate.
Qed.

Lemma debugName_only_in_errors_witness :
  generateAbstractTree (Some svg_close) None
  = OK (mkAbstractNode "svg" {[ "viewBox" := "0 0 1024 1024" ]}
          [mkAbstractNode "path" {[ "d" := "M563.8 512l262.5-312.9" ]} []]).
Proof.
  destruct (debugName_only_in_errors (Some "close") None) as (_ & Hlabel & _).
  apply Hlabel. vm_compute. reflexivity.
Defined.

(** X4.  A returned tree mirrors the input node by node, at every depth
    and in document order: the same number of nodes, and for each node
    the source's tag, exactly the source's attributes, and as many
    children. *)
Theorem normalizeNode_mirrors (debugName : option string) (node : Node)
    (t : AbstractNode) :
  normalizeNode node debugName = OK t ->
  Forall2 mirrors (subnodes node) (abstract_subnodes t)
  /\ List.length (abstract_subnodes t) = List.length (subnodes node).
Proof.
  intros Ht. assert (Forall2 mirrors (subnodes node) (abstract_subnodes t)) as Hall.
  { revert t Ht. induction node as [nn tn at_ cs IH] using Node_ind. intros t Ht.
    apply normalizeNode_OK in Ht as (_ & Htag & Hattrs & Hcs). simpl in *.
    rewrite abstract_subnodes_unfold. constructor.
    - split; [exact Htag|]. split; [apply reduce_attrs_lookup, Hattrs|].
      simpl. symmetry. apply (Forall2_length _ _ _ Hcs).
    - clear -IH Hcs. induction Hcs as [|c c' cs cs' Hc _ IHcs]; [constructor|].
      apply Forall_cons in IH as [IHc IH]. simpl.
      apply Forall2_app; [apply IHc, Hc | apply IHcs, IH]. }
  split; [exact Hall|]. symmetry. apply (Forall2_length _ _ _ Hall).
Qed.

Lemma normalizeNode_mirrors_witness :
  exists t,
    normalizeNode svg_nested (Some "nested") = OK t
    /\ List.length (abstract_subnodes t) = 4%nat.
Proof.
  destruct (normalizeNode svg_nested (Some "nested")) as [t|e] eqn:Ht.
  - exists t. split; [reflexivity|].
    destruct (normalizeNode_mirrors (Some "nested") svg_nested t Ht) as (_ & Hlen).
    rewrite Hlen. reflexivity.
  - vm_compute in Ht. discriminate.
Defined.

(** ** The shape of an accepted [viewBox] *)

Lemma split_no_space (s : string) : has_space s = false -> split " " s = [s].
Proof.
  induction s as [|c s IH]; [reflexivity|]. simpl.
  intros H. apply orb_false_iff in H as [Hc Hs]. rewrite Hc, (IH Hs). reflexivity.
Qed.

Lemma split_token (token rest : string) :
  has_space token = false ->
  split " " (token +:+ String " " rest) = token :: split " " rest.
Proof.
  induction token as [|c token IH]; [reflexivity|].
  change (String c token +:+ String " " rest)
    with (String c (token +:+ String " " rest)).
  simpl. intros H. apply orb_false_iff in H as [Hc Htoken].
  rewrite Hc, (IH Htoken). reflexivity.
Qed.

(** Joining tokens that hold no space with single spaces and splitting
    again gives the tokens back. *)
Lemma split_concat (tokens : list string) :
  tokens <> [] -> Forall (fun token => has_space token = false) tokens ->
  split " " (String.concat " " tokens) = tokens.
Proof.
  intros Hne Hall. induction Hall as [|token tokens Htoken Hall IH]; [contradiction|].
  destruct tokens as [|token' tokens].
  - simpl. apply split_no_space, Htoken.
  - change (String.concat " " (token :: token' :: tokens))
      with (token +:+ String " " (String.concat " " (token' :: tokens))).
    rewrite split_token by exact Htoken. rewrite IH by discriminate. reflexivity.
Qed.

(** X5.  A [viewBox] written as tokens without spaces, joined by single
    spaces, passes the size check exactly when there are four tokens;
    with any other number of tokens the root is rejected with the size
    message, which shows the parsed third and fourth token. *)
Theorem generateAbstractTree_four_tokens (node : Node) (debugName : option string)
    (viewBox : Attribute) (tokens : list string) :
  tagName node = Some "svg" ->
  find_viewBox node = Some viewBox ->
  value viewBox = String.concat " " tokens ->
  tokens <> [] ->
  Forall (fun token => has_space token = false) tokens ->
  generateAbstractTree (Some node) debugName =
  if Nat.eqb (List.length tokens) 4 then
    if existsb is_oneLevelPathNode (childNodes node)
    then normalizeNode node debugName
    else Throw (AssertionError debugName)
  else
    Throw (AssertionError
             (Some (size_message (map parseInt (drop 2 tokens)) debugName))).
Proof.
  intros Hsvg Hvb Hvalue Hne Hall.
  rewrite (generateAbstractTree_svg node debugName Hsvg), Hvb. simpl.
  unfold viewBox_tail, slice. rewrite Hvalue, (split_concat tokens Hne Hall).
  rewrite length_drop.
  destruct (Nat.eqb (List.length tokens) 4) eqn:Hfour.
  - apply Nat.eqb_eq in Hfour. rewrite Hfour. reflexivity.
  - apply Nat.eqb_neq in Hfour.
    destruct (Nat.eqb (List.length tokens - 2) 2) eqn:Htwo; [|reflexivity].
    apply Nat.eqb_eq in Htwo. lia.
Qed.

Lemma generateAbstractTree_four_tokens_witness :
  generateAbstractTree (Some svg_close) (Some "close")
  = normalizeNode svg_close (Some "close").
Proof.
  apply (generateAbstractTree_four_tokens svg_close (Some "close")
           (mkAttribute "viewBox" "0 0 1024 1024") ["0"; "0"; "1024"; "1024"]).
  - reflexivity.
  - reflexivity.
  - reflexivity.
  - discriminate.
  - repeat constructor.
Defined.

(** * Further properties of the naming functions *)

Lemma list_ascii_of_string_append (s t : string) :
  list_ascii_of_string (s +:+ t) = list_ascii_of_string s ++ list_ascii_of_string t.
Proof.
  induction s as [|c s IH]; [reflexivity|].
  change (String c s +:+ t) with (String c (s +:+ t)). simpl. rewrite IH. reflexivity.
Qed.

Lemma list_ascii_of_string_inj (s t : string) :
  list_ascii_of_string s = list_ascii_of_string t -> s = t.
Proof.
  intros H. rewrite <- (string_of_list_ascii_of_string s),
    <- (string_of_list_ascii_of_string t), H. reflexivity.
Qed.

(** The characters of an appended string, last character first. *)
Lemma rev_append (s t : string) :
  rev (list_ascii_of_string (s +:+ t))
  = rev (list_ascii_of_string t) ++ rev (list_ascii_of_string s).
Proof. rewrite list_ascii_of_string_append. apply rev_app_distr. Qed.

Lemma rev_list_ascii_inj (s t : string) :
  rev (list_ascii_of_string s) = rev (list_ascii_of_string t) -> s = t.
Proof.
  intros H. apply list_ascii_of_string_inj.
  rewrite <- (rev_involutive (list_ascii_of_string s)),
    <- (rev_involutive (list_ascii_of_string t)), H. reflexivity.
Qed.

(** Compare two appended strings from their last character on. *)
Ltac compare_suffixes H :=
  apply (f_equal (fun s => rev (list_ascii_of_string s))) in H;
  rewrite !rev_append in H; simpl in H;
  first [ discriminate H
        | injection H as H; apply rev_list_ascii_inj in H ].

Lemma withSuffix_OK (name : string) (theme : ThemeType) (s : string) :
  withSuffix name theme = OK s ->
  (theme = "fill" /\ s = name +:+ "-fill")
  \/ (theme = "outline" /\ s = name +:+ "-o")
  \/ (theme = "twotone" /\ s = name +:+ "-twotone").
Proof.
  unfold withSuffix.
  destruct (String.eqb theme "fill") eqn:Hfill;
    [apply String.eqb_eq in Hfill; intros [= <-]; tauto|].
  destruct (String.eqb theme "outline") eqn:Houtline;
    [apply String.eqb_eq in Houtline; intros [= <-]; tauto|].
  destruct (String.eqb theme "twotone") eqn:Htwotone;
    [apply String.eqb_eq in Htwotone; intros [= <-]; tauto|].
  discriminate.
Qed.

Lemma getIdentifier_OK (identifier : string) (theme : ThemeType) (s : string) :
  getIdentifier identifier theme = OK s ->
  (theme = "fill" /\ s = identifier +:+ "Fill")
  \/ (theme = "outline" /\ s = identifier +:+ "Outline")
  \/ (theme = "twotone" /\ s = identifier +:+ "TwoTone").
Proof.
  unfold getIdentifier.
  destruct (String.eqb theme "fill") eqn:Hfill;
    [apply String.eqb_eq in Hfill; intros [= <-]; tauto|].
  destruct (String.eqb theme "outline") eqn:Houtline;
    [apply String.eqb_eq in Houtline; intros [= <-]; tauto|].
  destruct (String.eqb theme "twotone") eqn:Htwotone;
    [apply String.eqb_eq in Htwotone; intros [= <-]; tauto|].
  discriminate.
Qed.

Lemma withSuffix_inj (name1 name2 : string) (theme1 theme2 : ThemeType) (s : string) :
  withSuffix name1 theme1 = OK s -> withSuffix name2 theme2 = OK s ->
  name1 = name2 /\ theme1 = theme2.
Proof.
  intros H1 H2.
  apply withSuffix_OK in H1 as [[-> ->] | [[-> ->] | [-> ->]]];
    apply withSuffix_OK in H2 as [[-> H] | [[-> H] | [-> H]]];
    compare_suffixes H; subst; split; reflexivity.
Qed.

(** X6.  The kebab names are free of collisions: a name produced by
    [withSuffix] comes from one base name and one theme only, and it
    starts with that base name. *)
Theorem withSuffix_no_collision (name1 name2 : string) (theme1 theme2 : ThemeType)
    (s : string) :
  withSuffix name1 theme1 = OK s ->
  String.prefix name1 s = true
  /\ (withSuffix name2 theme2 = OK s -> name1 = name2 /\ theme1 = theme2).
Proof.
  intros H1. split.
  - apply withSuffix_OK in H1 as [[_ ->] | [[_ ->] | [_ ->]]]; apply prefix_append.
  - intros H2. apply (withSuffix_inj name1 name2 theme1 theme2 s H1 H2).
Qed.

Lemma withSuffix_no_collision_witness :
  String.prefix "close" "close-o" = true
  /\ (withSuffix "close" "outline" = OK "close-o" ->
      "close" = "close" /\ "outline" = "outline").
Proof.
  apply (withSuffix_no_collision "close" "close" "outline" "outline" "close-o").
  reflexivity.
Defined.

(** X7.  The identifiers are free of collisions as well: an identifier
    produced by [getIdentifier] comes from one base identifier and one
    theme only, although [Outline] and [TwoTone] end alike, and it starts
    with that base identifier. *)
Theorem getIdentifier_no_collision (id1 id2 : string) (theme1 theme2 : ThemeType)
    (s : string) :
  getIdentifier id1 theme1 = OK s ->
  String.prefix id1 s = true
  /\ (getIdentifier id2 theme2 = OK s -> id1 = id2 /\ theme1 = theme2).
Proof.
  intros H1. split.
  - apply getIdentifier_OK in H1 as [[_ ->] | [[_ ->] | [_ ->]]]; apply prefix_append.
  - intros H2.
    apply getIdentifier_OK in H1 as [[-> ->] | [[-> ->] | [-> ->]]];
      apply getIdentifier_OK in H2 as [[-> H] | [[-> H] | [-> H]]];
      compare_suffixes H; subst; split; reflexivity.
Qed.

Lemma getIdentifier_no_collision_witness :
  String.prefix "Close" "CloseTwoTone" = true
  /\ (getIdentifier "Close" "twotone" = OK "CloseTwoTone" ->
      "Close" = "Close" /\ "twotone" = "twotone").
Proof.
  apply (getIdentifier_no_collision "Close" "Close" "twotone" "twotone" "CloseTwoTone").
  reflexivity.
Defined.

(** * Further properties of the rollback lookup *)

Section RollbackFurther.

Context `{Path} `{Fs} (env : Environment) (kebabCaseName : string).

(** X8.  What [getRollbackTheme] returns is a member of the candidate
    list whose probe succeeds and before which every probe failed; and
    the only error it throws is the one for an icon without any source
    file, thrown when every probe failed (an empty candidate list
    included). *)
Theorem getRollbackTheme_outcome (rollbackList : list ThemeType) :
  (forall theme,
      getRollbackTheme env kebabCaseName rollbackList = OK theme ->
      exists before after,
        rollbackList = before ++ theme :: after
        /\ Forall (fun t => isAccessable (theme_url env kebabCaseName t) = false) before
        /\ isAccessable (theme_url env kebabCaseName theme) = true)
  /\ (forall e,
        getRollbackTheme env kebabCaseName rollbackList = Throw e ->
        e = Error ("There is no SVG of the icon: " +:+ kebabCaseName)
        /\ Forall (fun t => isAccessable (theme_url env kebabCaseName t) = false)
                  rollbackList).
Proof.
  induction rollbackList as [|candidate rest [IHok IHthrow]].
  - split; [discriminate|]. intros e [= <-]. split; [reflexivity | constructor].
  - rewrite getRollbackTheme_cons.
    destruct (isAccessable (theme_url env kebabCaseName candidate)) eqn:Hprobe.
    + split; [|discriminate]. intros theme [= <-].
      exists [], rest. split; [reflexivity|]. split; [constructor | exact Hprobe].
    + split.
      * intros theme Htheme.
        destruct (IHok theme Htheme) as (before & after & -> & Hbefore & Hfound).
        exists (candidate :: before), after. split; [reflexivity|].
        split; [constructor; assumption | exact Hfound].
      * intros e He. destruct (IHthrow e He) as [-> Hrest].
        split; [reflexivity | constructor; assumption].
Qed.

(** X9.  Candidate lists compose: the lookup over two lists one after
    the other is the lookup over the first and, only when that one finds
    nothing, the lookup over the second. *)
Theorem getRollbackTheme_app (first second : list ThemeType) :
  getRollbackTheme env kebabCaseName (first ++ second) =
  match getRollbackTheme env kebabCaseName first with
  | OK theme => OK theme
  | Throw _ => getRollbackTheme env kebabCaseName second
  end.
Proof.
  induction first as [|candidate rest IH]; [reflexivity|].
  simpl. rewrite !getRollbackTheme_cons.
  destruct (isAccessable (theme_url env kebabCaseName candidate)); [reflexivity|].
  exact IH.
Qed.

End RollbackFurther.

Lemma getRollbackTheme_outcome_witness :
  exists before after,
    ["twotone"; "outline"; "fill"] = before ++ "outline" :: after
    /\ Forall (fun t => @isAccessable fs_outline_only
                          (@theme_url join_path env_svg "close" t) = false) before
    /\ @isAccessable fs_outline_only (@theme_url join_path env_svg "close" "outline")
       = true.
Proof.
  destruct (@getRollbackTheme_outcome join_path fs_outline_only env_svg "close"
              ["twotone"; "outline"; "fill"]) as (Hok & _).
  apply Hok. reflexivity.
Defined.

(** * Further properties of the name table *)

(** X10.  For a theme of the enumeration [theseShouldBeWithTheme] returns
    a table with exactly one entry for each distinct base name other than
    ["__proto__"], whose value is the derived name of the base name (its
    kebab name, or the identifier of its PascalCase form): the table has
    as many entries as there are distinct such names. *)
Theorem theseShouldBeWithTheme_entries `{Lodash} (basicNames : list string)
    (theme : ThemeType) (isKebabCase : bool) :
  is_theme theme = true ->
  exists table,
    theseShouldBeWithTheme basicNames theme isKebabCase = OK table
    /\ (forall k v, table !! k = Some v <->
                    k ∈ basicNames /\ k <> "__proto__"
                    /\ derived_name theme isKebabCase k = OK v)
    /\ size table
       = List.length (remove_dups (filter (fun k => k <> "__proto__") basicNames)).
Proof.
  intros Htheme.
  destruct (theseShouldBeWithTheme_table basicNames theme isKebabCase Htheme)
    as (table & Htable & Hlookup & Hdom).
  exists table. split; [exact Htable|]. split; [exact Hlookup|].
  rewrite <- size_dom, Hdom.
  rewrite <- (size_list_to_set (C := gset string)) by apply NoDup_remove_dups.
  f_equal. apply set_eq. intros k.
  rewrite elem_of_difference, !elem_of_list_to_set, elem_of_remove_dups,
    list_elem_of_filter, elem_of_singleton. tauto.
Qed.

Lemma theseShouldBeWithTheme_entries_witness :
  exists table,
    @theseShouldBeWithTheme lodash_identity ["close"; "check"; "close"] "outline" true
    = OK table
    /\ table !! "close" = Some "close-o"
    /\ size table = 2%nat.
Proof.
  destruct (@theseShouldBeWithTheme_entries lodash_identity
              ["close"; "check"; "close"] "outline" true eq_refl)
    as (table & Htable & Hlookup & Hsize).
  exists table. split; [exact Htable|]. split.
  - apply Hlookup. split; [apply list_elem_of_here|].
    split; [discriminate | reflexivity].
  - rewrite Hsize. vm_compute. reflexivity.
Defined.

Section NameTableFurther.

Context `{Lodash}.

Lemma theseShouldBeWithTheme_first (first : string) (rest : list string)
    (theme : ThemeType) (isKebabCase : bool) :
  is_theme theme = false ->
  theseShouldBeWithTheme (first :: rest) theme isKebabCase =
  Throw (TypeError
           (if isKebabCase
            then "Unknown theme type: " +:+ theme +:+ ", name: " +:+ first
            else "Unknown theme type: " +:+ theme +:+ ", identifier: "
                 +:+ lodash_upperFirst (lodash_camelCase first))).
Proof.
  intros Htheme. unfold is_theme in Htheme.
  apply orb_false_iff in Htheme as [Htheme Htwotone].
  apply orb_false_iff in Htheme as [Hfill Houtline].
  unfold theseShouldBeWithTheme. simpl.
  unfold name_entry, withSuffix, getIdentifier.
  rewrite Hfill, Houtline, Htwotone. destruct isKebabCase; reflexivity.
Qed.


(** X12.  In a table of kebab names every value is the kebab name of its
    key, and no two keys share a value. *)
Theorem kebab_table_injective (basicNames : list string) (theme : ThemeType)
    (table : gmap string string) :
  theseShouldBeWithTheme basicNames theme true = OK table ->
  (forall k v, table !! k = Some v -> withSuffix k theme = OK v)
  /\ (forall k1 k2 v, table !! k1 = Some v -> table !! k2 = Some v -> k1 = k2).
Proof.
  intros Htable.
  assert (forall k v, table !! k = Some v -> withSuffix k theme = OK v) as Hvalue.
  { destruct (is_theme theme) eqn:Htheme.
    - destruct (theseShouldBeWithTheme_table basicNames theme true Htheme)
        as (table' & Htable' & Hlookup & _).
      rewrite Htable in Htable'. injection Htable' as <-.
      intros k v Hk. apply Hlookup in Hk as (_ & _ & Hk). exact Hk.
    - destruct basicNames as [|first rest].
      + injection Htable as <-. intros k v Hk. rewrite lookup_empty in Hk. discriminate.
      + rewrite theseShouldBeWithTheme_first in Htable by exact Htheme. discriminate. }
  split; [exact Hvalue|].
  intros k1 k2 v Hk1 Hk2.
  apply (withSuffix_inj k1 k2 theme theme v (Hvalue k1 v Hk1) (Hvalue k2 v Hk2)).
Qed.

End NameTableFurther.


Lemma kebab_table_injective_witness :
  withSuffix "close" "fill" = OK "close-fill".
Proof.
  destruct (@kebab_table_injective lodash_identity ["close"; "check"] "fill"
              {[ "close" := "close-fill"; "check" := "check-fill" ]})
    as (Hvalue & _).
  - vm_compute. reflexivity.
  - apply Hvalue. vm_compute. reflexivity.
Defined.

(** * Properties of clearing the output *)

Lemma endsWith_unfold (s suffix : string) :
  endsWith s suffix =
  String.eqb s suffix
  || match s with
     | EmptyString => false
     | String _ rest => endsWith rest suffix
     end.
Proof. destruct s; reflexivity. Qed.

(** A string ends with a suffix when it is some string followed by the
    suffix. *)
Lemma endsWith_spec (s suffix : string) :
  endsWith s suffix = true <-> exists front, s = front +:+ suffix.
Proof.
  split.
  - induction s as [|c s IH]; rewrite endsWith_unfold, orb_true_iff.
    + intros [Heq|Hrest]; [|discriminate].
      apply String.eqb_eq in Heq. exists "". exact Heq.
    + intros [Heq|Hrest].
      * apply String.eqb_eq in Heq. exists "". exact Heq.
      * destruct (IH Hrest) as [front ->]. exists (String c front). reflexivity.
  - intros [front ->]. induction front as [|c front IH].
    + change ("" +:+ suffix) with suffix.
      rewrite endsWith_unfold, String.eqb_refl. reflexivity.
    + change (String c front +:+ suffix) with (String c (front +:+ suffix)).
      rewrite endsWith_unfold, IH. apply orb_true_r.
Qed.

Section Clear.

Context `{Chalk} `{Relative} (env : Environment).

Lemma delete_entries_announced (entries : list (string * string)) (i : nat)
    (target : string) :
  List.flat_map (delete_entry env) entries !! 0%nat <> Some (Rimraf target)
  /\ (List.flat_map (delete_entry env) entries !! S i = Some (Rimraf target) ->
      List.flat_map (delete_entry env) entries !! i
      = Some (log_notice ("Delete " +:+ path_relative (base env) target +:+ "."))).
Proof.
  revert i. induction entries as [|entry entries IH]; intros i.
  - split; [discriminate|]. discriminate.
  - split; [discriminate|]. simpl. destruct i as [|i]; simpl.
    + intros [= <-]. reflexivity.
    + destruct i as [|i].
      * intros Hzero. destruct (IH 0%nat) as [Hnot _]. contradiction.
      * intros Hnext. destruct (IH i) as [_ Hprev]. apply Hprev, Hnext.
Qed.

(** X13.  [clear] hands to [rimraf] exactly the paths stored under a key
    that ends in [OUTPUT], and nothing else: a path stored only under
    other keys is never deleted.  The call first logs that it clears the
    folders, and every deletion is announced by the notice written just
    before it. *)
Theorem clear_deletes_outputs_only (paths : list (string * string)) :
  (forall target,
      Rimraf target ∈ clear env paths <->
      exists key front, (key, target) ∈ paths /\ key = front +:+ "OUTPUT")
  /\ clear env paths !! 0%nat = Some (log_notice "Clear folders.")
  /\ (forall i target,
        clear env paths !! S i = Some (Rimraf target) ->
        clear env paths !! i
        = Some (log_notice ("Delete " +:+ path_relative (base env) target +:+ "."))).
Proof.
  split; [|split; [reflexivity|]].
  - intros target. unfold clear. rewrite elem_of_cons, elem_of_flat_map. split.
    + intros [Hlog|(entry & Hentry & Heffect)]; [discriminate|].
      apply list_elem_of_In, filter_In in Hentry as [Hin Hkey].
      apply list_elem_of_In in Hin. apply endsWith_spec in Hkey as [front Hfront].
      apply elem_of_cons in Heffect as [Heffect|Heffect]; [discriminate|].
      apply list_elem_of_singleton in Heffect. injection Heffect as ->.
      exists entry.1, front. split; [|exact Hfront]. destruct entry; exact Hin.
    + intros (key & front & Hin & ->). right. exists (front +:+ "OUTPUT", target).
      split.
      * apply list_elem_of_In, filter_In. split; [apply list_elem_of_In, Hin|].
        apply endsWith_spec. exists front. reflexivity.
      * apply list_elem_of_further, list_elem_of_here.
  - intros i target Hrimraf. unfold clear in *. destruct i as [|i].
    + simpl in Hrimraf.
      destruct (delete_entries_announced
                  (List.filter (fun entry : string * string =>
                                  endsWith entry.1 "OUTPUT") paths) 0%nat target)
        as [Hnot _].
      contradiction.
    + simpl in Hrimraf |- *.
      destruct (delete_entries_announced
                  (List.filter (fun entry : string * string =>
                                  endsWith entry.1 "OUTPUT") paths) i target)
        as [_ Hprev].
      apply Hprev, Hrimraf.
Qed.

End Clear.

Lemma clear_deletes_outputs_only_witness :
  Rimraf "/test/root/src/manifest.ts" ∈ @clear chalk_plain relative_same env_svg test_paths
  /\ ~ Rimraf "/test/root/src/" ∈ @clear chalk_plain relative_same env_svg test_paths
  /\ ~ Rimraf "/test/root/svg" ∈ @clear chalk_plain relative_same env_svg test_paths.
Proof.
  destruct (@clear_deletes_outputs_only chalk_plain relative_same env_svg test_paths)
    as (Htargets & _).
  split; [|split].
  - apply Htargets. exists "MANIFEST_OUTPUT", "MANIFEST_". split; [|reflexivity].
    do 6 apply list_elem_of_further. apply list_elem_of_here.
  - intros Hin. vm_compute in Hin.
    repeat (apply elem_of_cons in Hin as [Hin|Hin]; [discriminate|]).
    inversion Hin.
  - intros Hin. vm_compute in Hin.
    repeat (apply elem_of_cons in Hin as [Hin|Hin]; [discriminate|]).
    inversion Hin.
Defined.

(** * What the results do not depend on *)

(** X14.  For a theme of the enumeration the table depends only on which
    base names occur: two lists with the same members, in any order and
    with any repetition, give the same mapping from key to value. *)
Theorem theseShouldBeWithTheme_members `{Lodash} (names1 names2 : list string)
    (theme : ThemeType) (isKebabCase : bool) :
  is_theme theme = true ->
  (forall k, k ∈ names1 <-> k ∈ names2) ->
  theseShouldBeWithTheme names1 theme isKebabCase
  = theseShouldBeWithTheme names2 theme isKebabCase.
Proof.
  intros Htheme Hsame.
  destruct (theseShouldBeWithTheme_table names1 theme isKebabCase Htheme)
    as (table1 & -> & Hlookup1 & _).
  destruct (theseShouldBeWithTheme_table names2 theme isKebabCase Htheme)
    as (table2 & -> & Hlookup2 & _).
  f_equal. apply map_eq. intros k. apply option_eq. intros v.
  rewrite Hlookup1, Hlookup2, Hsame. reflexivity.
Qed.

Lemma theseShouldBeWithTheme_members_witness :
  @theseShouldBeWithTheme lodash_identity ["close"; "check"; "close"] "fill" true
  = @theseShouldBeWithTheme lodash_identity ["check"; "close"] "fill" true.
Proof.
  apply (@theseShouldBeWithTheme_members lodash_identity); [reflexivity|].
  intros k. rewrite !elem_of_cons. tauto.
Defined.

(** X15.  [normalizeNode] never reads [nodeName]: replacing the node
    names throughout a tree changes neither the tree that is returned nor
    the error that is thrown. *)
Theorem normalizeNode_ignores_nodeName (f : string -> string) (node : Node)
    (debugName : option string) :
  normalizeNode (rename_nodes f node) debugName = normalizeNode node debugName.
Proof.
  induction node as [nn tn at_ cs IH] using Node_ind.
  change (rename_nodes f (mkNode nn tn at_ cs))
    with (mkNode (f nn) tn at_ (map (rename_nodes f) cs)).
  rewrite !normalizeNode_unfold. simpl.
  destruct (no_tag tn); [reflexivity|].
  destruct (reduce_attrs at_) as [m|e]; [|reflexivity]. simpl.
  replace (mapE (fun child => normalizeNode child debugName) (map (rename_nodes f) cs))
    with (mapE (fun child => normalizeNode child debugName) cs); [reflexivity|].
  induction IH as [|c cs Hc _ IHcs]; [reflexivity|].
  simpl. rewrite Hc, IHcs. reflexivity.
Qed.
